(** * ThermoPro: the finite-element thermal-bridge engine (femCalculations)

    A shallow embedding of [generateMesh], [solveHeatTransfer] and the
    diagnostics they feed, followed by the properties of the
    specification that concern them.

    JavaScript numbers are IEEE 754 binary64 values; they are modelled
    by Rocq's primitive [float], which is the same format with the same
    rounding, so every definition below evaluates to the value the
    TypeScript code computes.  Array indices, loop counters and ids are
    natural numbers: the code only ever produces them below the array
    length limit, where binary64 arithmetic on integers is exact. *)

From Stdlib Require Import ZArith Floats Bool String Lia.
From Stdlib Require Uint63.
From stdpp Require Import base option list gmap.

Set Warnings "-inexact-float".
Set Default Proof Using "Type".

(** ** JavaScript numbers *)

Module Js.

Local Open Scope float_scope.

(** [undefined] read as a number (the operand of an arithmetic
    operator) is [NaN]. *)
Definition numOfUndefined : float := nan.

Definition isNegZero (x : float) : bool :=
  match Prim2SF x with S754_zero true => true | _ => false end.

(** ToBoolean on a number: [0], [-0] and [NaN] are falsy. *)
Definition truthy (x : float) : bool := negb (is_nan x || is_zero x).

(** [Math.min] and [Math.max] on two arguments: [NaN] is contagious and
    [-0] counts as smaller than [+0]. *)
Definition min (a b : float) : float :=
  if is_nan a || is_nan b then nan
  else if b <? a then b
  else if isNegZero b && (a =? b) then b
  else a.

Definition max (a b : float) : float :=
  if is_nan a || is_nan b then nan
  else if a <? b then b
  else if isNegZero a && (a =? b) then b
  else a.

(** [Math.min(...l)] and [Math.max(...l)]: the fold starts from
    [+Infinity], respectively [-Infinity]. *)
Definition minOf (l : list float) : float := foldl min infinity l.
Definition maxOf (l : list float) : float := foldl max neg_infinity l.

(** [Math.pow(x, 2)], the correctly rounded square. *)
Definition sq (x : float) : float := x * x.

(** A float below 2^63 from a natural number (exact below 2^53). *)
Definition ofNat (n : nat) : float := of_uint63 (Uint63.of_Z (Z.of_nat n)).

Definition ofZ (z : Z) : float :=
  if (z <? 0)%Z then - of_uint63 (Uint63.of_Z (- z)) else of_uint63 (Uint63.of_Z z).

(** The least integer not below the value of a finite float. *)
Definition ceilZ (s : bool) (m : positive) (e : Z) : Z :=
  let n := if s then Z.neg m else Z.pos m in
  if (0 <=? e)%Z then (n * 2 ^ e)%Z else (- ((- n) / 2 ^ (- e)))%Z.

(** The greatest integer not above the value of a finite float. *)
Definition floorZ (s : bool) (m : positive) (e : Z) : Z :=
  let n := if s then Z.neg m else Z.pos m in
  if (0 <=? e)%Z then (n * 2 ^ e)%Z else (n / 2 ^ (- e))%Z.

(** [Math.ceil]: floats with a non-negative exponent are integers
    already; a negative value above [-1] gives [-0]. *)
Definition ceil (x : float) : float :=
  match Prim2SF x with
  | S754_finite s m e =>
      if (e <? 0)%Z then
        let c := ceilZ s m e in
        if (c =? 0)%Z then (if s then neg_zero else zero) else ofZ c
      else x
  | _ => x
  end.


(** Counters of [for] loops are numbers that start at [0] and go up by
    one; up to 2^53 they are exact, and there the increment stops
    changing them.  [countLt b] is the number of iterations of
    [for (k = 0; k < b; k++)], [countLe b] that of
    [for (k = 0; k <= b; k++)]; [None] when the loop never leaves. *)
Definition counterLimit : Z := 2 ^ 53.

Definition countLt (b : float) : option nat :=
  match Prim2SF b with
  | S754_infinity false => None
  | S754_finite false m e =>
      let c := ceilZ false m e in
      if (c <=? counterLimit)%Z then Some (Z.to_nat c) else None
  | _ => Some 0%nat
  end.

Definition countLe (b : float) : option nat :=
  match Prim2SF b with
  | S754_infinity false => None
  | S754_zero _ => Some 1%nat
  | S754_finite false m e =>
      let c := floorZ false m e in
      if (c <? counterLimit)%Z then Some (Z.to_nat (c + 1)) else None
  | _ => Some 0%nat
  end.

End Js.

(** ** Outcomes of a call

    A call returns a value, throws, or gives no result at all. *)

Inductive Failure : Type :=
  | TypeError          (* a property of [undefined] is read *)
  | ResourceExhausted. (* a loop bound is not a finite count, or an array
                          outgrows the length limit: the call ends in a
                          [RangeError] or does not end *)

Inductive Outcome (A : Type) : Type :=
  | Returns (a : A)
  | Fails (f : Failure).

Arguments Returns {A} a.
Arguments Fails {A} f.

Definition bind {A B} (o : Outcome A) (k : A -> Outcome B) : Outcome B :=
  match o with
  | Returns a => k a
  | Fails f => Fails f
  end.

Notation "'let*' x ':=' o 'in' k" := (bind o (fun x => k))
  (at level 10, x name, o at level 100, k at level 200).

(** Reading [a[i].field]: [a[i]] is [undefined] out of range. *)
Definition at_ {A} (a : list A) (i : nat) : Outcome A :=
  match a !! i with
  | Some x => Returns x
  | None => Fails TypeError
  end.

(** The count of a loop, or no result. *)
Definition finite (c : option nat) : Outcome nat :=
  match c with
  | Some n => Returns n
  | None => Fails ResourceExhausted
  end.

(** An array holds fewer than 2^32 entries; a [push] beyond that
    throws. *)
Definition arrayLimit : Z := 2 ^ 32.

Definition checkLength {A} (l : list A) : Outcome (list A) :=
  if (Z.of_nat (length l) <? arrayLimit)%Z then Returns l
  else Fails ResourceExhausted.

(** A loop whose body may fail. *)
Fixpoint forEach {A S} (l : list A) (body : A -> S -> Outcome S) (s : S)
  : Outcome S :=
  match l with
  | [] => Returns s
  | a :: l' => let* s' := body a s in forEach l' body s'
  end.

(** ** Data model (types/thermal and femCalculations) *)

Record Point : Type := mkPoint { px : float; py : float }.

Record MaterialProperties : Type := mkMaterial {
  name : string;
  thermalConductivity : float;
  defaultThickness : float;
  color : string
}.

Inductive ElementType : Type :=
  | line | rectangle | circle | wall | insulation | dimension | text.

(** The fields of a [DrawingElement] the engine reads: [type], [points]
    and [properties.material]. *)
Record DrawingElement : Type := mkDrawing {
  elType : ElementType;
  points : list Point;
  material : option MaterialProperties
}.

Inductive BoundaryType : Type := interior | exterior | adiabatic.

Record MeshNode : Type := mkNode {
  id : nat;
  x : float;
  y : float;
  temperature : float;
  fixed : bool;
  isBoundary : bool;
  boundaryType : option BoundaryType
}.

(** [eid] is the [id] and [emat] the [material] of an element; its
    node indices are whole numbers. *)
Record MeshElement : Type := mkElement {
  eid : nat;
  nodes : nat * nat * nat;
  emat : MaterialProperties
}.

(** [meshNodes] and [meshElements] are the fields [nodes] and
    [elements] of a mesh, [resNodes] and [resElements] those of a
    result. *)
Record Mesh : Type := mkMesh {
  meshNodes : list MeshNode;
  meshElements : list MeshElement
}.

Record FluxValue : Type := mkFlux { fx : float; fy : float; magnitude : float }.

Record ThermalSimulationResult : Type := mkResult {
  resNodes : list MeshNode;
  resElements : list MeshElement;
  minTemperature : float;
  maxTemperature : float;
  isotherms : list float;
  psiValue : float;
  fRsiValue : float;
  fluxValues : list FluxValue
}.

Definition INTERIOR_HEAT_TRANSFER_COEFFICIENT : float := 7.7.
Definition EXTERIOR_HEAT_TRANSFER_COEFFICIENT : float := 25.0.

Definition isRectangle (t : ElementType) : bool :=
  match t with rectangle => true | _ => false end.

Definition isInterior (b : option BoundaryType) : bool :=
  match b with Some interior => true | _ => false end.

Definition isExterior (b : option BoundaryType) : bool :=
  match b with Some exterior => true | _ => false end.

(** ** Mesh generation *)

Section GenerateMesh.

Local Open Scope float_scope.

Variable drawingElements : list DrawingElement.
Variables meshSize adaptiveFactor interiorTemp exteriorTemp : float.

Record Domain : Type := mkDomain {
  minX : float; minY : float; maxX : float; maxY : float
}.

(** The bounds of all points, from [Infinity] and [-Infinity]. *)
Definition boundingBox : Domain :=
  foldl (fun d point =>
           mkDomain (Js.min (minX d) (px point)) (Js.min (minY d) (py point))
                    (Js.max (maxX d) (px point)) (Js.max (maxY d) (py point)))
        (mkDomain infinity infinity neg_infinity neg_infinity)
        (concat (map points drawingElements)).

Definition margin : float := meshSize * 5.

Definition domain : Domain :=
  let b := boundingBox in
  mkDomain (minX b - margin) (minY b - margin) (maxX b + margin) (maxY b + margin).

Definition width : float := maxX domain - minX domain.
Definition height : float := maxY domain - minY domain.

Definition nx : float := Js.ceil (width / meshSize) + 1.
Definition ny : float := Js.ceil (height / meshSize) + 1.

(** The node the grid loops push at column [i] of row [j]; [nodeId] is
    the running counter. *)
Definition gridNode (nodeId i j : nat) : MeshNode :=
  let x := minX domain + Js.ofNat i * (width / (nx - 1)) in
  let y := minY domain + Js.ofNat j * (height / (ny - 1)) in
  let isLeftBoundary := abs (x - minX domain) <? 0.001 in
  let isRightBoundary := abs (x - maxX domain) <? 0.001 in
  let isBottomBoundary := abs (y - minY domain) <? 0.001 in
  let isTopBoundary := abs (y - maxY domain) <? 0.001 in
  let isBoundary :=
    isLeftBoundary || isRightBoundary || isBottomBoundary || isTopBoundary in
  let '(boundaryType, fixed, temperature) :=
    if isLeftBoundary then (Some exterior, true, exteriorTemp)
    else if isRightBoundary then (Some interior, true, interiorTemp)
    else if isTopBoundary || isBottomBoundary then (Some adiabatic, false, 0)
    else (None, false, 0) in
  mkNode nodeId x y temperature fixed isBoundary boundaryType.

(** [nodeId] counts the pushes, so it is the length of the node list. *)
Definition gridRow (cx j : nat) (ns : list MeshNode) : list MeshNode :=
  foldl (fun ns i => ns ++ [gridNode (length ns) i j]) ns (seq 0 cx).

Definition gridNodes (cx cy : nat) : list MeshNode :=
  foldl (fun ns j => gridRow cx j ns) [] (seq 0 cy).

(** The two grid loops, [j < ny] around [i < nx]. *)
Definition gridStage : Outcome (list MeshNode) :=
  match Js.countLt ny with
  | Some O => Returns []
  | Some cy => let* cx := finite (Js.countLt nx) in checkLength (gridNodes cx cy)
  | None => Fails ResourceExhausted
  end.

Definition distance (x1 y1 x2 y2 : float) : float :=
  sqrt (Js.sq (x1 - x2) + Js.sq (y1 - y2)).

(** [findJunctions]: corner points of two distinct elements closer than
    the tolerance, without repetition. *)
Definition junctionTolerance : float := 0.5.

Definition addJunction (point1 point2 : Point) (junctions : list Point)
  : list Point :=
  if distance (px point1) (py point1) (px point2) (py point2) <? junctionTolerance
  then
    let isNew :=
      negb (existsb (fun junction =>
              distance (px junction) (py junction) (px point1) (py point1)
              <? junctionTolerance) junctions) in
    if isNew then junctions ++ [mkPoint (px point1) (py point1)] else junctions
  else junctions.

Definition junctionsOfPair (element1 element2 : DrawingElement)
  (junctions : list Point) : list Point :=
  foldl (fun js point1 =>
           foldl (fun js point2 => addJunction point1 point2 js)
                 js (points element2))
        junctions (points element1).

Fixpoint findJunctionsFrom (elements : list DrawingElement)
  (junctions : list Point) : list Point :=
  match elements with
  | [] => junctions
  | element1 :: rest =>
      findJunctionsFrom rest
        (foldl (fun js element2 => junctionsOfPair element1 element2 js)
               junctions rest)
  end.

Definition findJunctions (elements : list DrawingElement) : list Point :=
  findJunctionsFrom elements [].

(** Adaptive refinement around one junction. *)
Definition refinementRadius : float := meshSize * 5.
Definition refinementSize : float := meshSize * adaptiveFactor.
Definition refinementNx : float := Js.ceil (2 * refinementRadius / refinementSize).

Definition nodeDistance (node : MeshNode) (x0 y0 : float) : float :=
  distance (x node) (y node) x0 y0.

Definition refineCandidate (junction : Point) (i j : nat) (ns : list MeshNode)
  : list MeshNode :=
  let x := px junction - refinementRadius + Js.ofNat i * refinementSize in
  let y := py junction - refinementRadius + Js.ofNat j * refinementSize in
  if (minX domain <=? x) && (x <=? maxX domain)
     && (minY domain <=? y) && (y <=? maxY domain)
  then
    let tooClose :=
      existsb (fun node => nodeDistance node x y <? refinementSize / 2) ns in
    if negb tooClose
    then ns ++ [mkNode (length ns) x y 0 false false None]
    else ns
  else ns.

Definition refineAt (rc : nat) (ns : list MeshNode) (junction : Point)
  : list MeshNode :=
  foldl (fun ns j => foldl (fun ns i => refineCandidate junction i j ns)
                           ns (seq 0 rc))
        ns (seq 0 rc).

Definition refineStage (grid : list MeshNode) : Outcome (list MeshNode) :=
  match findJunctions drawingElements with
  | [] => Returns grid
  | junctions =>
      let* rc := finite (Js.countLe refinementNx) in
      checkLength (foldl (refineAt rc) grid junctions)
  end.

(** [findMaterialAtPoint]: the material of the first rectangle that
    contains the point. *)
Fixpoint findMaterialAtPoint (elements : list DrawingElement) (point : Point)
  : Outcome (option MaterialProperties) :=
  match elements with
  | [] => Returns None
  | element :: rest =>
      match isRectangle (elType element), material element with
      | true, Some mat =>
          match points element with
          | p1 :: p2 :: _ =>
              let minX := Js.min (px p1) (px p2) in
              let maxX := Js.max (px p1) (px p2) in
              let minY := Js.min (py p1) (py p2) in
              let maxY := Js.max (py p1) (py p2) in
              if (minX <=? px point) && (px point <=? maxX)
                 && (minY <=? py point) && (py point <=? maxY)
              then Returns (Some mat)
              else findMaterialAtPoint rest point
          | _ => Fails TypeError
          end
      | _, _ => findMaterialAtPoint rest point
      end
  end.

Definition air : MaterialProperties := mkMaterial "Air" 0.025 0 "#FFFFFF".

(** The two triangles of the grid cell at column [i] of row [j]. *)
Definition cellElements (ns : list MeshNode) (cx j i : nat)
  (els : list MeshElement) : Outcome (list MeshElement) :=
  let bottomLeft := (j * cx + i)%nat in
  let bottomRight := (j * cx + i + 1)%nat in
  let topLeft := ((j + 1) * cx + i)%nat in
  let topRight := ((j + 1) * cx + i + 1)%nat in
  let* nbl := at_ ns bottomLeft in
  let* ntr := at_ ns topRight in
  let centerX := (x nbl + x ntr) / 2 in
  let centerY := (y nbl + y ntr) / 2 in
  let* found := findMaterialAtPoint drawingElements (mkPoint centerX centerY) in
  let material := default air found in
  Returns (els ++ [mkElement (length els) (bottomLeft, bottomRight, topRight) material;
                   mkElement (S (length els)) (bottomLeft, topRight, topLeft) material]).

(** The loops [j < ny - 1] around [i < nx - 1]; they are reached with
    [ny] and [nx] whole numbers below the array limit, or with no row to
    visit. *)
Definition triangulate (ns : list MeshNode) (cx cy : nat)
  : Outcome (list MeshElement) :=
  let* els :=
    forEach (seq 0 (cy - 1))
      (fun j els => forEach (seq 0 (cx - 1)) (fun i els => cellElements ns cx j i els) els)
      [] in
  checkLength els.

Definition generateMesh : Outcome Mesh :=
  let* grid := gridStage in
  let* ns := refineStage grid in
  let cy := default O (Js.countLt ny) in
  let cx := default O (Js.countLt nx) in
  let* els := triangulate ns cx cy in
  Returns (mkMesh ns els).

End GenerateMesh.

(** ** The conduction solver *)

(** The sparse conductance matrix: the object keyed by ["i-j"] is a
    finite map keyed by the pair of indices. *)
Abbreviation SparseMatrix := (gmap (nat * nat) float).

Section Solver.

Local Open Scope float_scope.

(** [matrix[key] = (matrix[key] || 0) + value]. *)
Definition addToSparseMatrix (matrix : SparseMatrix) (i j : nat) (value : float)
  : SparseMatrix :=
  let old := match matrix !! (i, j) with
             | Some v => if Js.truthy v then v else 0
             | None => 0
             end in
  <[(i, j) := old + value]> matrix.

Definition deleteFromSparseMatrix (matrix : SparseMatrix) (i j : nat)
  : SparseMatrix :=
  delete (i, j) matrix.

(** Reading an entry of a number array in an arithmetic expression. *)
Definition readNum (a : list float) (i : nat) : float :=
  default Js.numOfUndefined (a !! i).

(** The three nodes of a triangle, [nodes[i]], [nodes[j]], [nodes[k]],
    whose coordinates are read next. *)
Definition corners (ns : list MeshNode) (element : MeshElement)
  : Outcome (MeshNode * MeshNode * MeshNode) :=
  let '(i, j, k) := nodes element in
  let* ni := at_ ns i in
  let* nj := at_ ns j in
  let* nk := at_ ns k in
  Returns (ni, nj, nk).

Definition triangleArea (ni nj nk : MeshNode) : float :=
  0.5 * abs ((x nj - x ni) * (y nk - y ni) - (x nk - x ni) * (y nj - y ni)).

(** Assembly of one element into [K]. *)
Definition assembleElement (ns : list MeshNode) (element : MeshElement)
  (K : SparseMatrix) : Outcome SparseMatrix :=
  let '(i, j, k) := nodes element in
  let* c := corners ns element in
  let '(ni, nj, nk) := c in
  let area := triangleArea ni nj nk in
  let conductivity := thermalConductivity (emat element) in
  let bi := y nj - y nk in
  let bj := y nk - y ni in
  let bk := y ni - y nj in
  let ci := x nk - x nj in
  let cj := x ni - x nk in
  let ck := x nj - x ni in
  let factor := conductivity / (4 * area) in
  let K := addToSparseMatrix K i i (factor * (bi * bi + ci * ci)) in
  let K := addToSparseMatrix K i j (factor * (bi * bj + ci * cj)) in
  let K := addToSparseMatrix K i k (factor * (bi * bk + ci * ck)) in
  let K := addToSparseMatrix K j i (factor * (bj * bi + cj * ci)) in
  let K := addToSparseMatrix K j j (factor * (bj * bj + cj * cj)) in
  let K := addToSparseMatrix K j k (factor * (bj * bk + cj * ck)) in
  let K := addToSparseMatrix K k i (factor * (bk * bi + ck * ci)) in
  let K := addToSparseMatrix K k j (factor * (bk * bj + ck * cj)) in
  let K := addToSparseMatrix K k k (factor * (bk * bk + ck * ck)) in
  Returns K.

Definition assemble (ns : list MeshNode) (elements : list MeshElement)
  : Outcome SparseMatrix :=
  forEach elements (assembleElement ns) ∅.

(** The surface coefficients of the convective branch.  The solver
    uses the two exported constants; they are variables here so that
    their influence can be stated. *)
Variables hInterior hExterior : float.

(** Row and column [i] are deleted for a fixed node. *)
Definition clearRowAndColumn (n i : nat) (K : SparseMatrix) : SparseMatrix :=
  foldl (fun K j => deleteFromSparseMatrix (deleteFromSparseMatrix K i j) j i)
        K (seq 0 n).

(** The boundary condition of node [i]. *)
Definition applyBoundary (n : nat) (KF : SparseMatrix * list float)
  (inode : nat * MeshNode) : SparseMatrix * list float :=
  let '(K, F) := KF in
  let '(i, node) := inode in
  if fixed node then
    let K := clearRowAndColumn n i K in
    (addToSparseMatrix K i i 1.0, <[i := temperature node]> F)
  else if isBoundary node then
    if isInterior (boundaryType node) then
      (addToSparseMatrix K i i hInterior, <[i := readNum F i + hInterior * 20]> F)
    else if isExterior (boundaryType node) then
      (addToSparseMatrix K i i hExterior, <[i := readNum F i + hExterior * 0]> F)
    else (K, F)
  else (K, F).

Definition indexed {A} (l : list A) : list (nat * A) := zip (seq 0 (length l)) l.

Definition applyBoundaryConditions (ns : list MeshNode)
  (KF : SparseMatrix * list float) : SparseMatrix * list float :=
  foldl (applyBoundary (length ns)) KF (indexed ns).

(** The sum of one Gauss-Seidel update: [F[i]] minus the present
    off-diagonal entries times the current temperatures. *)
Definition rowSum (K : SparseMatrix) (F : list float) (n i : nat) (T : list float)
  : float :=
  foldl (fun sum j =>
           if negb (i =? j)%nat then
             match K !! (i, j) with
             | Some v => if Js.truthy v then sum - v * readNum T j else sum
             | None => sum
             end
           else sum)
        (readNum F i) (seq 0 n).

(** The diagonal entry as the division reads it. *)
Definition diagonal (K : SparseMatrix) (i : nat) : float :=
  default Js.numOfUndefined (K !! (i, i)).

Definition updateNode (K : SparseMatrix) (F : list float) (n : nat)
  (eT : float * list float) (inode : nat * MeshNode) : float * list float :=
  let '(error, T) := eT in
  let '(i, node) := inode in
  if negb (fixed node) then
    let sum := rowSum K F n i T in
    let newT := sum / diagonal K i in
    (Js.max error (abs (newT - readNum T i)), <[i := newT]> T)
  else (error, T).

(** One sweep: [error] restarts from [0]. *)
Definition sweep (K : SparseMatrix) (F : list float) (ns : list MeshNode)
  (T : list float) : float * list float :=
  foldl (updateNode K F (length ns)) (0, T) (indexed ns).

(** [while (iteration < maxIterations && error > tolerance)], with
    [left] the sweeps that remain before the cap; [maxIterations] is a
    whole number. *)
Fixpoint iterate (K : SparseMatrix) (F : list float) (ns : list MeshNode)
  (tolerance : float) (left : nat) (error : float) (T : list float)
  : float * list float :=
  match left with
  | O => (error, T)
  | S left' =>
      if tolerance <? error then
        let '(error', T') := sweep K F ns T in
        iterate K F ns tolerance left' error' T'
      else (error, T)
  end.

Definition gaussSeidel (K : SparseMatrix) (F : list float) (ns : list MeshNode)
  (maxIterations : nat) (tolerance : float) : float * list float :=
  iterate K F ns tolerance maxIterations (tolerance + 1) (map temperature ns).

Definition setTemperature (node : MeshNode) (t : float) : MeshNode :=
  mkNode (id node) (x node) (y node) t (fixed node) (isBoundary node)
         (boundaryType node).

(** [nodes[i].temperature = T[i]] for every [i]. *)
Definition storeTemperatures (ns : list MeshNode) (T : list float)
  : list MeshNode :=
  imap (fun i node => setTemperature node (readNum T i)) ns.

End Solver.

(** ** Diagnostics *)

Section Diagnostics.

Local Open Scope float_scope.

Fixpoint mapM {A B} (f : A -> Outcome B) (l : list A) : Outcome (list B) :=
  match l with
  | [] => Returns []
  | a :: l' => let* b := f a in let* bs := mapM f l' in Returns (b :: bs)
  end.

Fixpoint filterM {A} (f : A -> Outcome bool) (l : list A) : Outcome (list A) :=
  match l with
  | [] => Returns []
  | a :: l' =>
      let* keep := f a in
      let* rest := filterM f l' in
      Returns (if keep then a :: rest else rest)
  end.

Definition isInteriorSurface (node : MeshNode) : bool :=
  isBoundary node && isInterior (boundaryType node).

(** [calculateFRsiValue]. *)
Definition minSurfaceTemp (ns : list MeshNode) (maxTemp : float) : float :=
  foldl (fun minSurfaceTemp node =>
           if isInteriorSurface node
           then Js.min minSurfaceTemp (temperature node)
           else minSurfaceTemp)
        maxTemp ns.

Definition calculateFRsiValue (mesh : Mesh) (minTemp maxTemp : float) : float :=
  (minSurfaceTemp (meshNodes mesh) maxTemp - minTemp) / (maxTemp - minTemp).

(** [calculateHeatFlux]. *)
Definition elementFlux (ns : list MeshNode) (element : MeshElement)
  : Outcome FluxValue :=
  let* c := corners ns element in
  let '(ni, nj, nk) := c in
  let area := triangleArea ni nj nk in
  let bi := y nj - y nk in
  let bj := y nk - y ni in
  let bk := y ni - y nj in
  let ci := x nk - x nj in
  let cj := x ni - x nk in
  let ck := x nj - x ni in
  let gradTx :=
    (bi * temperature ni + bj * temperature nj + bk * temperature nk) / (2 * area) in
  let gradTy :=
    (ci * temperature ni + cj * temperature nj + ck * temperature nk) / (2 * area) in
  let conductivity := thermalConductivity (emat element) in
  let qx := - conductivity * gradTx in
  let qy := - conductivity * gradTy in
  let magnitude := sqrt (qx * qx + qy * qy) in
  let centerX := (x ni + x nj + x nk) / 3 in
  let centerY := (y ni + y nj + y nk) / 3 in
  Returns (mkFlux centerX centerY magnitude).

Definition calculateHeatFlux (mesh : Mesh) : Outcome (list FluxValue) :=
  mapM (elementFlux (meshNodes mesh)) (meshElements mesh).

(** [estimateTotalHeatFlow]. *)
Definition includesNode (element : MeshElement) (nodeId : nat) : bool :=
  let '(i, j, k) := nodes element in
  (i =? nodeId)%nat || (j =? nodeId)%nat || (k =? nodeId)%nat.

Definition addLocalFlow (ns : list MeshNode) (node : MeshNode)
  (element : MeshElement) (localFlow : float) : Outcome float :=
  let* c := corners ns element in
  let '(ni, nj, nk) := c in
  let area := triangleArea ni nj nk in
  let dT := abs (temperature node
                 - (temperature ni + temperature nj + temperature nk) / 3) in
  let dx := sqrt area in
  let conductivity := thermalConductivity (emat element) in
  Returns (localFlow + conductivity * (dT / dx) * sqrt area).

Definition estimateTotalHeatFlow (mesh : Mesh) : Outcome float :=
  forEach (meshNodes mesh)
    (fun node totalFlow =>
       if isInteriorSurface node then
         let connectedElements :=
           filter (fun element => includesNode element (id node) = true)
                  (meshElements mesh) in
         let* localFlow :=
           forEach connectedElements (addLocalFlow (meshNodes mesh) node) 0 in
         Returns (totalFlow + localFlow)
       else Returns totalFlow)
    0.

(** [findElementsInRegion]: the elements whose centre lies in the
    rectangle. *)
Definition findElementsInRegion (mesh : Mesh) (minX minY maxX maxY : float)
  : Outcome (list MeshElement) :=
  filterM (fun element =>
             let* c := corners (meshNodes mesh) element in
             let '(ni, nj, nk) := c in
             let centerX := (x ni + x nj + x nk) / 3 in
             let centerY := (y ni + y nj + y nk) / 3 in
             Returns ((minX <=? centerX) && (centerX <=? maxX)
                      && (minY <=? centerY) && (centerY <=? maxY)))
          (meshElements mesh).

(** [estimateOneDimensionalHeatFlow]. *)
Definition wallTolerance : float := 5.

Record Wall : Type := mkWall { wallY : float; wallNodes : list MeshNode }.

(** The node joins the first wall within the tolerance, or opens one. *)
Fixpoint addToWalls (walls : list Wall) (node : MeshNode) : list Wall :=
  match walls with
  | [] => [mkWall (y node) [node]]
  | existingWall :: rest =>
      if abs (wallY existingWall - y node) <? wallTolerance
      then mkWall (wallY existingWall) (wallNodes existingWall ++ [node]) :: rest
      else existingWall :: addToWalls rest node
  end.

Definition horizontalWalls (ns : list MeshNode) : list Wall :=
  foldl (fun walls node => if isBoundary node then addToWalls walls node else walls)
        [] ns.

(** [sort((a, b) => a.x - b.x)]: a stable sort; [a] goes before the
    first [b] for which the comparator is negative. *)
Fixpoint insertByX (a : MeshNode) (sorted : list MeshNode) : list MeshNode :=
  match sorted with
  | [] => [a]
  | b :: rest => if x a - x b <? 0 then a :: sorted else b :: insertByX a rest
  end.

Definition sortByX (l : list MeshNode) : list MeshNode :=
  foldl (fun sorted a => insertByX a sorted) [] l.

Definition sameName (m1 m2 : MaterialProperties) : bool :=
  String.eqb (name m1) (name m2).

(** [materials.filter((m, index, self) => index === self.findIndex(...))]:
    the first material of each name. *)
Definition uniqueByName (materials : list MaterialProperties)
  : list MaterialProperties :=
  foldl (fun seen m => if existsb (sameName m) seen then seen else seen ++ [m])
        [] materials.

Definition averageX (l : list MeshNode) : float :=
  foldl (fun sum node => sum + x node) 0 l / Js.ofNat (length l).

Definition wallFlow (mesh : Mesh) (minTemp maxTemp : float) (hwall : Wall)
  (oneDFlow : float) : Outcome float :=
  let sortedNodes := sortByX (wallNodes hwall) in
  let exteriorNodes :=
    filter (fun node => isExterior (boundaryType node) = true) sortedNodes in
  let interiorNodes :=
    filter (fun node => isInterior (boundaryType node) = true) sortedNodes in
  if (0 <? length exteriorNodes)%nat && (0 <? length interiorNodes)%nat then
    let avgExteriorX := averageX exteriorNodes in
    let avgInteriorX := averageX interiorNodes in
    let wallThickness := abs (avgInteriorX - avgExteriorX) in
    let* elementsInWall :=
      findElementsInRegion mesh
        (Js.min avgExteriorX avgInteriorX) (wallY hwall - wallTolerance)
        (Js.max avgExteriorX avgInteriorX) (wallY hwall + wallTolerance) in
    let materials := map emat elementsInWall in
    let uniqueMaterials := uniqueByName materials in
    let equivalentR :=
      foldl (fun equivalentR material =>
               let materialElements :=
                 filter (fun element => sameName (emat element) material = true)
                        elementsInWall in
               let materialThickness :=
                 wallThickness * (Js.ofNat (length materialElements)
                                  / Js.ofNat (length elementsInWall)) in
               equivalentR + materialThickness / thermalConductivity material)
            0 uniqueMaterials in
    let equivalentR :=
      equivalentR + (1 / INTERIOR_HEAT_TRANSFER_COEFFICIENT
                     + 1 / EXTERIOR_HEAT_TRANSFER_COEFFICIENT) in
    let uValue := 1 / equivalentR in
    let wallLength := Js.ofNat (length sortedNodes) * wallTolerance in
    let tempDiff := maxTemp - minTemp in
    Returns (oneDFlow + uValue * wallLength * tempDiff)
  else Returns oneDFlow.

Definition estimateOneDimensionalHeatFlow (mesh : Mesh) (minTemp maxTemp : float)
  : Outcome float :=
  forEach (horizontalWalls (meshNodes mesh)) (wallFlow mesh minTemp maxTemp) 0.

(** [calculatePsiValue]. *)
Definition calculatePsiValue (mesh : Mesh) (minTemp maxTemp : float)
  : Outcome float :=
  let* totalHeatFlow := estimateTotalHeatFlow mesh in
  let* oneDimensionalHeatFlow :=
    estimateOneDimensionalHeatFlow mesh minTemp maxTemp in
  Returns (totalHeatFlow - oneDimensionalHeatFlow).

End Diagnostics.

(** ** [solveHeatTransfer] *)

Section SolveHeatTransfer.

Local Open Scope float_scope.

Variables hInterior hExterior : float.

(** The system after assembly and boundary conditions. *)
Definition buildSystem (mesh : Mesh) : Outcome (SparseMatrix * list float) :=
  let ns := meshNodes mesh in
  let n := length ns in
  let F := replicate n 0 in
  let* K := assemble ns (meshElements mesh) in
  Returns (applyBoundaryConditions hInterior hExterior ns (K, F)).

(** The call mutates the nodes of [mesh] in place and returns the same
    arrays in the result: [resNodes] and [resElements] are the node and
    element lists of the mesh after the call. *)
Definition solveHeatTransferWith (mesh : Mesh) (maxIterations : nat)
  (tolerance : float) : Outcome ThermalSimulationResult :=
  let ns := meshNodes mesh in
  let elements := meshElements mesh in
  let* KF := buildSystem mesh in
  let '(K, F) := KF in
  let '(_, T) := gaussSeidel K F ns maxIterations tolerance in
  let ns' := storeTemperatures ns T in
  let mesh' := mkMesh ns' elements in
  let minTemperature := Js.minOf T in
  let maxTemperature := Js.maxOf T in
  let range := maxTemperature - minTemperature in
  let isotherms :=
    map (fun i => minTemperature + Js.ofNat (i + 1) * range / 10) (seq 0 9) in
  let* psiValue := calculatePsiValue mesh' minTemperature maxTemperature in
  let fRsiValue := calculateFRsiValue mesh' minTemperature maxTemperature in
  let* fluxValues := calculateHeatFlux mesh' in
  Returns (mkResult ns' elements minTemperature maxTemperature isotherms
                    psiValue fRsiValue fluxValues).

End SolveHeatTransfer.

Definition solveHeatTransfer : Mesh -> nat -> float -> Outcome ThermalSimulationResult :=
  solveHeatTransferWith INTERIOR_HEAT_TRANSFER_COEFFICIENT
                        EXTERIOR_HEAT_TRANSFER_COEFFICIENT.

(** ** Drawing utilities (utils/drawingUtils) *)

Section DrawingUtils.

Local Open Scope float_scope.

(** An element as the editor holds it: [drawing] carries its [type],
    [points] and [properties.material]; [thickness] and
    [propConductivity] are [properties.thickness] and
    [properties.thermalConductivity]. *)
Record EditorElement : Type := mkEditorElement {
  elementId : string;
  drawing : DrawingElement;
  thickness : option float;
  propConductivity : option float
}.

Definition calculateDistance (p1 p2 : Point) : float :=
  sqrt (Js.sq (px p2 - px p1) + Js.sq (py p2 - py p1)).

Definition connectionTolerance : float := 0.1.

(** [findConnections]: [other] is pushed once for every pair of points
    within the tolerance. *)
Definition findConnections (element : EditorElement)
  (allElements : list EditorElement) : list EditorElement :=
  foldl (fun connections other =>
           if String.eqb (elementId other) (elementId element) then connections
           else
             foldl (fun cs p1 =>
                      foldl (fun cs p2 =>
                               if calculateDistance p1 p2 <=? connectionTolerance
                               then cs ++ [other] else cs)
                            cs (points (drawing other)))
                   connections (points (drawing element)))
        [] allElements.

Inductive Severity : Type := severityError | severityWarning.

Record ValidationError : Type := mkValidationError {
  errorElementId : string;
  message : string;
  severity : Severity
}.

Record ValidationResult : Type := mkValidationResult {
  isValid : bool;
  errors : list ValidationError
}.

Definition isWallOrInsulation (t : ElementType) : bool :=
  match t with wall | insulation => true | _ => false end.

(** [!v || v <= 0] on an optional number. *)
Definition missingOrNotPositive (v : option float) : bool :=
  match v with
  | None => true
  | Some t => negb (Js.truthy t) || (t <=? 0)
  end.

Definition isSome {A} (o : option A) : bool :=
  match o with Some _ => true | None => false end.

(** The checks of one element: geometry, material properties,
    connections. *)
Definition validateElement (elements : list EditorElement)
  (errors : list ValidationError) (element : EditorElement)
  : list ValidationError :=
  let report (message : string) (severity : Severity) :=
    mkValidationError (elementId element) message severity in
  let errors :=
    if (length (points (drawing element)) <? 2)%nat
    then errors ++ [report "Element must have at least 2 points"%string severityError]
    else errors in
  let errors :=
    if isWallOrInsulation (elType (drawing element)) then
      let errors :=
        if negb (isSome (material (drawing element)))
        then errors ++ [report "Material must be specified"%string severityError]
        else errors in
      let errors :=
        if missingOrNotPositive (thickness element)
        then errors ++ [report "Invalid thickness value"%string severityError]
        else errors in
      if missingOrNotPositive (propConductivity element)
      then errors ++ [report "Invalid thermal conductivity value"%string severityError]
      else errors
    else errors in
  if isWallOrInsulation (elType (drawing element)) then
    let connections := findConnections element elements in
    if (length connections =? 0)%nat
    then errors ++ [report "Element is not connected to any other element"%string
                           severityWarning]
    else errors
  else errors.

Definition isErrorEntry (e : ValidationError) : bool :=
  match severity e with severityError => true | severityWarning => false end.

Definition validateDrawing (elements : list EditorElement) : ValidationResult :=
  let errors := foldl (validateElement elements) [] elements in
  mkValidationResult
    (length (List.filter isErrorEntry errors) =? 0)%nat
    errors.

End DrawingUtils.

(** ** The editor's hit test (components/ThermalBridgeDrawing) *)

Section HitTest.

Local Open Scope float_scope.

(** [findElementAtPoint]: the first element with exactly two points
    whose bounds contain the point, or [null]. *)
Definition findElementAtPoint (point : Point) (elements : list DrawingElement)
  : option DrawingElement :=
  List.find
    (fun element =>
       match points element with
       | [p1; p2] =>
           let minX := Js.min (px p1) (px p2) in
           let maxX := Js.max (px p1) (px p2) in
           let minY := Js.min (py p1) (py p2) in
           let maxY := Js.max (py p1) (py p2) in
           (minX <=? px point) && (px point <=? maxX)
           && (minY <=? py point) && (py point <=? maxY)
       | _ => false
       end)
    elements.

End HitTest.

(** ** Isotherm segments (components/ThermalBridgeSimulation) *)

Section Isotherms.

Local Open Scope float_scope.

(** A corner of a triangle as [findIsothermSegments] takes it: the
    array [[x, y, temperature]]. *)
Definition Corner : Type := float * float * float.

(** One side of the triangle: where the isotherm lies between the
    temperatures of its ends, the interpolated point is pushed. *)
Definition sideIntersection (isotherm : float)
  (intersections : list (float * float)) (side : Corner * Corner)
  : list (float * float) :=
  let '((ax, ay, t1), (bx, by_, t2)) := side in
  if ((t1 <=? isotherm) && (isotherm <=? t2))
     || ((isotherm <=? t1) && (t2 <=? isotherm))
  then
    let factor := (isotherm - t1) / (t2 - t1) in
    intersections ++ [(ax + factor * (bx - ax), ay + factor * (by_ - ay))]
  else intersections.

Definition isothermIntersections (p1 p2 p3 : Corner) (isotherm : float)
  : list (float * float) :=
  foldl (sideIntersection isotherm) [] [(p1, p2); (p2, p3); (p3, p1)].

(** A segment [[x0, y0, x1, y1]] when exactly two sides are crossed. *)
Definition findIsothermSegments (p1 p2 p3 : Corner) (isotherm : float)
  : list (float * float * float * float) :=
  match isothermIntersections p1 p2 p3 isotherm with
  | [(x0, y0); (x1, y1)] => [(x0, y0, x1, y1)]
  | _ => []
  end.

End Isotherms.

(** ** The simulation run (components/ThermalBridgeCalculator) *)

Section RunSimulation.

Local Open Scope float_scope.

(** The tolerance [solveHeatTransfer] takes when it is called without
    one. *)
Definition defaultTolerance : float := 1e-6.

(** [runSimulation]: the mesh of the drawing, then the solver on it;
    what either throws is caught and reported. *)
Definition runSimulation (drawingElements : list DrawingElement)
  (meshSize adaptiveFactor tempInt tempExt : float) (maxIterations : nat)
  : Outcome ThermalSimulationResult :=
  let* mesh := generateMesh drawingElements meshSize adaptiveFactor tempInt tempExt in
  solveHeatTransfer mesh maxIterations defaultTolerance.

End RunSimulation.

(** * Vocabulary of the properties *)

(** ** Sample inputs *)

Definition sampleMaterial : MaterialProperties :=
  mkMaterial "Beton" 2.3 200 "#888888".

Definition sampleRegion (x1 y1 x2 y2 : float) : DrawingElement :=
  mkDrawing rectangle [mkPoint x1 y1; mkPoint x2 y2] (Some sampleMaterial).

(** One square region, and two squares that meet in a corner. *)
Definition oneRegion : list DrawingElement := [sampleRegion 0 0 10 10].
Definition twoRegions : list DrawingElement :=
  [sampleRegion 0 0 5 5; sampleRegion 5 5 10 10].

(** A mesh with a convective node: node 0 is a free node of the
    interior surface, nodes 1 and 2 are free inner nodes, and one
    triangle joins them. *)
Definition convectiveMesh : Mesh :=
  mkMesh [mkNode 0 0 0 0 false true (Some interior);
          mkNode 1 1 0 5 false false None;
          mkNode 2 0 1 7 false false None]
         [mkElement 0 (0, 1, 2) sampleMaterial].


(** A mesh whose warm and cold nodes are both of type [exterior]: no
    node lies on the interior surface. *)
Definition exteriorOnlyMesh : Mesh :=
  mkMesh [mkNode 0 0 0 0 true true (Some exterior);
          mkNode 1 1 0 10 true true (Some exterior)] [].

(** A cold exterior node and a warm interior node, both fixed. *)
Definition twoSurfaceMesh : Mesh :=
  mkMesh [mkNode 0 0 0 0 true true (Some exterior);
          mkNode 1 1 0 20 true true (Some interior)] [].

(** ** Meshes *)

(** [ns'] is [ns] followed by pushed nodes that all satisfy [P]. *)
Definition pushedOnto (P : MeshNode -> Prop) (ns ns' : list MeshNode) : Prop :=
  exists added, ns' = ns ++ added /\ Forall P added.

(** The numbers of columns and rows the grid loops visit. *)
Definition gridColumns (des : list DrawingElement) (meshSize : float) : nat :=
  default O (Js.countLt (nx des meshSize)).
Definition gridRows (des : list DrawingElement) (meshSize : float) : nat :=
  default O (Js.countLt (ny des meshSize)).

(** What a triangle of the cell loop satisfies: its corners are nodes
    of the list and lie below [cx * cy]. *)
Definition cornersBelow (bound : nat) (element : MeshElement) : Prop :=
  let '(i, j, k) := nodes element in i < bound /\ j < bound /\ k < bound.

Definition fixedIsBoundary (node : MeshNode) : Prop :=
  fixed node = true -> isBoundary node = true.

Definition freeInteriorNode (node : MeshNode) : Prop :=
  fixed node = false /\ isBoundary node = false /\ boundaryType node = None.

(** Every element of the mesh joins nodes of the mesh. *)
Definition elementsInRange (mesh : Mesh) : Prop :=
  Forall (cornersBelow (length (meshNodes mesh))) (meshElements mesh).

Definition sameButTemperature (node node' : MeshNode) : Prop :=
  id node' = id node /\ x node' = x node /\ y node' = y node
  /\ fixed node' = fixed node /\ isBoundary node' = isBoundary node
  /\ boundaryType node' = boundaryType node.

(** The node takes the convective branch of the boundary loop. *)
Definition convective (node : MeshNode) : bool :=
  negb (fixed node) && isBoundary node
  && (isInterior (boundaryType node) || isExterior (boundaryType node)).

Definition surfaceTypeIsFixed (node : MeshNode) : Prop :=
  isInterior (boundaryType node) || isExterior (boundaryType node) = true ->
  fixed node = true.

(** ** The claims that the code does not meet *)

(** The claim of the specification, for a reference temperature
    [reference] that the caller configures. *)
Definition loadFollowsConfiguredReference (reference : float) : Prop :=
  forall ns K F i node,
    ns !! i = Some node -> length F = length ns ->
    fixed node = false -> isBoundary node = true ->
    isInterior (boundaryType node) = true ->
    readNum (applyBoundaryConditions INTERIOR_HEAT_TRANSFER_COEFFICIENT
               EXTERIOR_HEAT_TRANSFER_COEFFICIENT ns (K, F)).2 i
    = (readNum F i + INTERIOR_HEAT_TRANSFER_COEFFICIENT * reference)%float.










(** ** Keys of binary64 numbers *)

(** A key that orders the numbers as [Math.min] and [Math.max] do:
    [-Infinity], the negative numbers, [-0], [+0], the positive numbers,
    [+Infinity]; numbers of one sign by exponent, then mantissa. *)
Definition key (v : spec_float) : Z * Z * Z :=
  match v with
  | S754_nan => (0, 0, 0)%Z
  | S754_infinity true => (-3, 0, 0)%Z
  | S754_infinity false => (3, 0, 0)%Z
  | S754_zero true => (-1, 0, 0)%Z
  | S754_zero false => (1, 0, 0)%Z
  | S754_finite true m e => (-2, - e, Z.neg m)%Z
  | S754_finite false m e => (2, e, Z.pos m)%Z
  end.





(** ** Vocabulary of the further properties *)

Definition idsArePositions (ns : list MeshNode) : Prop :=
  forall i node, ns !! i = Some node -> id node = i.

Definition elementIdsArePositions (els : list MeshElement) : Prop :=
  forall k element, els !! k = Some element -> eid element = k.

(** What the boundary type of a generated node says about its other
    fields. *)
Definition classified (interiorTemp exteriorTemp : float) (node : MeshNode)
  : Prop :=
  match boundaryType node with
  | Some exterior =>
      fixed node = true /\ isBoundary node = true
      /\ temperature node = exteriorTemp
  | Some interior =>
      fixed node = true /\ isBoundary node = true
      /\ temperature node = interiorTemp
  | Some adiabatic =>
      fixed node = false /\ isBoundary node = true
      /\ temperature node = 0%float
  | None =>
      fixed node = false /\ isBoundary node = false
      /\ temperature node = 0%float
  end.

Definition distinctCorners (element : MeshElement) : Prop :=
  let '(i, j, k) := nodes element in i <> j /\ j <> k /\ i <> k.

(** The two triangles of one grid cell: same material, and the
    diagonal from the first corner of both to the third corner of the
    first, which is the second corner of the second. *)
Definition halvesOfOneCell (e1 e2 : MeshElement) : Prop :=
  let '(a1, b1, c1) := nodes e1 in
  let '(a2, b2, c2) := nodes e2 in
  emat e1 = emat e2 /\ a1 = a2 /\ c1 = b2.

Definition materialFromInput (des : list DrawingElement) (m : MaterialProperties)
  : Prop :=
  m = air
  \/ exists d, d ∈ des /\ isRectangle (elType d) = true /\ material d = Some m.

Definition junctionsApart (junctions : list Point) : Prop :=
  forall i j q1 q2,
    i < j -> junctions !! i = Some q1 -> junctions !! j = Some q2 ->
    (distance (px q1) (py q1) (px q2) (py q2) <? junctionTolerance)%float = false.

(** A rectangle that carries a material has at least two points. *)
Definition hasCornersIfTagged (d : DrawingElement) : bool :=
  negb (isRectangle (elType d) && isSome (material d))
  || (2 <=? length (points d)).

(** The row and the column of node [i] in a system of [n] nodes hold
    nothing but a 1 on the diagonal. *)
Definition identityRow (n i : nat) (K : SparseMatrix) : Prop :=
  K !! (i, i) = Some 1%float
  /\ forall j, j < n -> j <> i -> K !! (i, j) = None /\ K !! (j, i) = None.

(** A node of type [interior] holds the interior temperature, a node of
    type [exterior] the exterior one. *)
Definition surfaceAtPrescribed (interiorTemp exteriorTemp : float)
  (node : MeshNode) : Prop :=
  match boundaryType node with
  | Some interior => temperature node = interiorTemp
  | Some exterior => temperature node = exteriorTemp
  | _ => True
  end.

(** ** Drawings *)

Definition positive (v : option float) : bool :=
  match v with Some t => (0 <? t)%float | None => false end.

(** What [validateDrawing] asks of an element: two points, and for a
    wall or an insulation a material, a thickness above 0 and a
    conductivity above 0. *)
Definition wellSpecified (element : EditorElement) : bool :=
  (2 <=? length (points (drawing element)))
  && (negb (isWallOrInsulation (elType (drawing element)))
      || (isSome (material (drawing element))
          && positive (thickness element)
          && positive (propConductivity element))).

(** The number of entries of type [error]. *)
Definition errorCount (errors : list ValidationError) : nat :=
  length (List.filter isErrorEntry errors).

(** A point of [element] lies within the connection tolerance of a
    point of [other]. *)
Definition touches (element other : EditorElement) : Prop :=
  exists p1 p2,
    p1 ∈ points (drawing element) /\ p2 ∈ points (drawing other)
    /\ (calculateDistance p1 p2 <=? connectionTolerance)%float = true.

(** A rectangle with a material and exactly two points: a region as the
    editor draws it. *)
Definition twoPointRegion (d : DrawingElement) : bool :=
  isRectangle (elType d) && isSome (material d) && (length (points d) =? 2).

(** The first node of a wall gives its height; the later ones lie
    within the tolerance of it. *)
Definition wallAround (w : Wall) : Prop :=
  match wallNodes w with
  | [] => False
  | first :: later =>
      wallY w = y first
      /\ Forall (fun node =>
                   (abs (wallY w - y node) <? wallTolerance)%float = true) later
  end.

(** ** Isotherms *)

Definition cornerTemperature (c : Corner) : float := snd c.

Definition below (isotherm : float) (c : Corner) : bool :=
  (cornerTemperature c <? isotherm)%float.
Definition above (isotherm : float) (c : Corner) : bool :=
  (isotherm <? cornerTemperature c)%float.
Definition atIsotherm (isotherm : float) (c : Corner) : bool :=
  (cornerTemperature c =? isotherm)%float.

(** How a number compares with another: below it, equal to it, above
    it, or not comparable. *)
Inductive Compared (t v : float) : Prop :=
  | comparedBelow :
      (t <? v)%float = true -> (t =? v)%float = false -> (v <? t)%float = false ->
      (t <=? v)%float = true -> (v <=? t)%float = false -> Compared t v
  | comparedEqual :
      (t <? v)%float = false -> (t =? v)%float = true -> (v <? t)%float = false ->
      (t <=? v)%float = true -> (v <=? t)%float = true -> Compared t v
  | comparedAbove :
      (t <? v)%float = false -> (t =? v)%float = false -> (v <? t)%float = true ->
      (t <=? v)%float = false -> (v <=? t)%float = true -> Compared t v
  | comparedNot :
      (t <? v)%float = false -> (t =? v)%float = false -> (v <? t)%float = false ->
      (t <=? v)%float = false -> (v <=? t)%float = false -> Compared t v.

(** ** The conductance matrix *)

Definition symmetricMatrix (K : SparseMatrix) : Prop :=
  forall a b, K !! (a, b) = K !! (b, a).

(** One call of [addToSparseMatrix], and what it does to the entry it
    reads. *)
Definition addEntry (K : SparseMatrix) (e : nat * nat * float) : SparseMatrix :=
  let '(r, c, v) := e in addToSparseMatrix K r c v.

Definition accumulate (o : option float) (v : float) : option float :=
  Some (match o with
        | Some w => if Js.truthy w then w else 0
        | None => 0
        end + v)%float.

Definition hits (a b : nat) (e : nat * nat * float) : bool :=
  let '(r, c, _) := e in (r =? a) && (c =? b).

(** * Properties *)

(** ** The model on concrete inputs *)

Example ceil_up : Js.ceil 3.25 = 4%float.
Proof. reflexivity. Qed.

Example ceil_negative : Js.ceil (-3.25) = (-3)%float.
Proof. reflexivity. Qed.

Example ceil_to_negative_zero : Js.ceil (-0.5) = neg_zero.
Proof. reflexivity. Qed.

Example ceil_whole : Js.ceil 12 = 12%float.
Proof. reflexivity. Qed.

Example countLt_whole_bound : Js.countLt 13 = Some 13.
Proof. reflexivity. Qed.

Example countLt_fraction : Js.countLt 2.5 = Some 3.
Proof. reflexivity. Qed.

Example countLt_not_a_number : Js.countLt nan = Some 0.
Proof. reflexivity. Qed.

Example countLt_infinite : Js.countLt infinity = None.
Proof. reflexivity. Qed.

Example countLe_whole_bound : Js.countLe 34 = Some 35.
Proof. reflexivity. Qed.

Example min_of_zeros : Js.min 0 neg_zero = neg_zero.
Proof. reflexivity. Qed.

Example min_of_nothing : Js.minOf [] = infinity.
Proof. reflexivity. Qed.

Example max_with_nan : Js.max 1 nan = nan.
Proof. reflexivity. Qed.

(** One region of 10 by 10 with mesh size 5: a grid of 13 by 13 nodes
    and 288 triangles. *)
Example oneRegion_mesh :
  exists mesh,
    generateMesh oneRegion 5 0.3 20 0 = Returns mesh
    /\ nx oneRegion 5 = 13%float /\ ny oneRegion 5 = 13%float
    /\ length (meshNodes mesh) = 169 /\ length (meshElements mesh) = 288.
Proof.
  destruct (generateMesh oneRegion 5 0.3 20 0) as [mesh|f] eqn:E;
    [|vm_compute in E; discriminate E].
  exists mesh. split; [done|].
  vm_compute in E. injection E as <-. repeat split; reflexivity.
Qed.

(** Two regions that meet in the corner (5, 5): one junction, and 320
    refinement nodes after the 169 grid nodes. *)
Example twoRegions_mesh :
  exists mesh,
    generateMesh twoRegions 5 0.5 20 0 = Returns mesh
    /\ findJunctions twoRegions = [mkPoint 5 5]
    /\ length (meshNodes mesh) = 489 /\ length (meshElements mesh) = 288.
Proof.
  destruct (generateMesh twoRegions 5 0.5 20 0) as [mesh|f] eqn:E;
    [|vm_compute in E; discriminate E].
  exists mesh. split; [done|].
  vm_compute in E. injection E as <-. repeat split; reflexivity.
Qed.

(** ** Loops and outcomes *)

Lemma foldl_invariant {A B} (P : A -> Prop) (f : A -> B -> A) (l : list B) (a : A) :
  P a -> (forall a b, b ∈ l -> P a -> P (f a b)) -> P (foldl f a l).
Proof.
  revert a. induction l as [|b l IH]; intros a Ha Hstep; simpl; [done|].
  apply IH.
  - apply Hstep; [left|done].
  - intros a' b' Hb'. apply Hstep. by right.
Qed.

Lemma bind_returns {A B} (o : Outcome A) (k : A -> Outcome B) (b : B) :
  bind o k = Returns b -> exists a, o = Returns a /\ k a = Returns b.
Proof. destruct o as [a|f]; simpl; [eauto|discriminate]. Qed.

Lemma forEach_invariant {A S} (P : S -> Prop) (body : A -> S -> Outcome S)
  (l : list A) (s s' : S) :
  P s ->
  (forall a s1 s2, a ∈ l -> P s1 -> body a s1 = Returns s2 -> P s2) ->
  forEach l body s = Returns s' -> P s'.
Proof.
  revert s. induction l as [|a l IH]; intros s Hs Hstep; simpl.
  - intros [= <-]. done.
  - intros H. apply bind_returns in H as (s1 & H1 & H2).
    apply (IH s1); [| |done].
    + apply (Hstep a s); [left|done|done].
    + intros a' t1 t2 Ha'. apply Hstep. by right.
Qed.

Lemma forEach_returns {A S} (body : A -> S -> Outcome S) (l : list A) (s : S) :
  (forall a s1, a ∈ l -> exists s2, body a s1 = Returns s2) ->
  exists s', forEach l body s = Returns s'.
Proof.
  revert s. induction l as [|a l IH]; intros s Hbody; simpl; [eauto|].
  destruct (Hbody a s) as [s1 ->]; [left|]. simpl.
  apply IH. intros a' t Ha'. apply Hbody. by right.
Qed.

Lemma mapM_returns {A B} (f : A -> Outcome B) (l : list A) :
  (forall a, a ∈ l -> exists b, f a = Returns b) ->
  exists bs, mapM f l = Returns bs.
Proof.
  induction l as [|a l IH]; intros Hf; simpl; [eauto|].
  destruct (Hf a) as [b ->]; [left|]. simpl.
  destruct IH as [bs ->]; [|simpl; eauto].
  intros a' Ha'. apply Hf. by right.
Qed.

Lemma filterM_returns {A} (f : A -> Outcome bool) (l : list A) :
  (forall a, a ∈ l -> exists b, f a = Returns b) ->
  exists r, filterM f l = Returns r.
Proof.
  induction l as [|a l IH]; intros Hf; simpl; [eauto|].
  destruct (Hf a) as [b ->]; [left|]. simpl.
  destruct IH as [bs ->]; [|simpl; eauto].
  intros a' Ha'. apply Hf. by right.
Qed.

Lemma filterM_sublist {A} (f : A -> Outcome bool) (l r : list A) :
  filterM f l = Returns r -> forall a, a ∈ r -> a ∈ l.
Proof.
  revert r. induction l as [|a l IH]; intros r; simpl.
  - intros [= <-] a Ha. done.
  - intros H. apply bind_returns in H as (keep & _ & H).
    apply bind_returns in H as (rest & Hrest & [= <-]).
    intros a' Ha'. destruct keep.
    + apply elem_of_cons in Ha' as [->|Ha']; [left|right; eauto].
    + right. eauto.
Qed.

Lemma checkLength_returns {A} (l l' : list A) :
  checkLength l = Returns l' -> l' = l.
Proof. unfold checkLength. case_match; congruence. Qed.

Lemma at_returns {A} (a : list A) (i : nat) (v : A) :
  at_ a i = Returns v -> a !! i = Some v.
Proof. unfold at_. destruct (a !! i); congruence. Qed.

Lemma at_in_range {A} (a : list A) (i : nat) :
  i < length a -> exists v, at_ a i = Returns v.
Proof.
  intros Hi. unfold at_. destruct (lookup_lt_is_Some_2 a i Hi) as [v ->]. eauto.
Qed.

(** ** The node list of a generated mesh *)

Lemma pushedOnto_refl P ns : pushedOnto P ns ns.
Proof. exists []. by rewrite app_nil_r. Qed.

Lemma pushedOnto_trans P ns1 ns2 ns3 :
  pushedOnto P ns1 ns2 -> pushedOnto P ns2 ns3 -> pushedOnto P ns1 ns3.
Proof.
  intros (a1 & -> & H1) (a2 & -> & H2). exists (a1 ++ a2).
  split; [by rewrite app_assoc|by apply Forall_app].
Qed.

Lemma pushedOnto_push (P : MeshNode -> Prop) ns node :
  P node -> pushedOnto P ns (ns ++ [node]).
Proof. intros H. exists [node]. split; [done|by constructor]. Qed.

Lemma pushedOnto_foldl {B} (P : MeshNode -> Prop)
  (f : list MeshNode -> B -> list MeshNode) (l : list B) ns :
  (forall ns b, pushedOnto P ns (f ns b)) -> pushedOnto P ns (foldl f ns l).
Proof.
  intros Hf. apply (foldl_invariant (pushedOnto P ns)).
  - apply pushedOnto_refl.
  - intros ns' b _ H. eapply pushedOnto_trans; [exact H|apply Hf].
Qed.

Section GeneratedNodes.

Variable drawingElements : list DrawingElement.
Variables meshSize adaptiveFactor interiorTemp exteriorTemp : float.

Let gNode := gridNode drawingElements meshSize interiorTemp exteriorTemp.
Let gRow := gridRow drawingElements meshSize interiorTemp exteriorTemp.
Let gNodes := gridNodes drawingElements meshSize interiorTemp exteriorTemp.

Variable P : MeshNode -> Prop.
Hypothesis P_grid : forall nodeId i j, P (gNode nodeId i j).
Hypothesis P_free : forall nodeId x0 y0, P (mkNode nodeId x0 y0 0 false false None).

Lemma gridRow_pushed cx j ns : pushedOnto P ns (gRow cx j ns).
Proof using P_grid.
  apply pushedOnto_foldl. intros ns' i. apply pushedOnto_push, P_grid.
Qed.

Lemma gridNodes_all cx cy : Forall P (gNodes cx cy).
Proof using P_grid.
  destruct (pushedOnto_foldl P (fun ns j => gRow cx j ns) (seq 0 cy) [])
    as (added & E & H).
  - intros ns j. apply gridRow_pushed.
  - unfold gNodes, gridNodes. fold gRow. rewrite E. done.
Qed.

Lemma gridStage_all grid :
  gridStage drawingElements meshSize interiorTemp exteriorTemp = Returns grid ->
  Forall P grid.
Proof using P_grid.
  unfold gridStage. destruct (Js.countLt _) as [[|cy]|]; [|intros H|done].
  - intros [= <-]. constructor.
  - apply bind_returns in H as (cx & _ & H).
    apply checkLength_returns in H as ->. apply gridNodes_all.
Qed.

Lemma refineCandidate_pushed junction i j ns :
  pushedOnto P ns (refineCandidate drawingElements meshSize adaptiveFactor junction i j ns).
Proof using P_free.
  unfold refineCandidate. repeat case_match; try apply pushedOnto_refl.
  apply pushedOnto_push, P_free.
Qed.

Lemma refineAt_pushed rc ns junction :
  pushedOnto P ns (refineAt drawingElements meshSize adaptiveFactor rc ns junction).
Proof using P_free.
  unfold refineAt. apply pushedOnto_foldl. intros ns1 j.
  apply pushedOnto_foldl. intros ns2 i. apply refineCandidate_pushed.
Qed.

Lemma refineStage_pushed grid ns :
  refineStage drawingElements meshSize adaptiveFactor grid = Returns ns ->
  pushedOnto P grid ns.
Proof using P_free.
  unfold refineStage. destruct (findJunctions _) as [|junction junctions].
  - intros [= <-]. apply pushedOnto_refl.
  - intros H. apply bind_returns in H as (rc & _ & H).
    apply checkLength_returns in H as ->.
    apply pushedOnto_foldl. intros ns1 jn. apply refineAt_pushed.
Qed.

End GeneratedNodes.

(** ** The stages of [generateMesh] *)

Section GeneratedMesh.

Variable drawingElements : list DrawingElement.
Variables meshSize adaptiveFactor interiorTemp exteriorTemp : float.

Lemma generateMesh_stages mesh :
  generateMesh drawingElements meshSize adaptiveFactor interiorTemp exteriorTemp
    = Returns mesh ->
  exists grid,
    gridStage drawingElements meshSize interiorTemp exteriorTemp = Returns grid
    /\ refineStage drawingElements meshSize adaptiveFactor grid
       = Returns (meshNodes mesh)
    /\ triangulate drawingElements (meshNodes mesh)
         (gridColumns drawingElements meshSize) (gridRows drawingElements meshSize)
       = Returns (meshElements mesh).
Proof.
  unfold generateMesh. intros H.
  apply bind_returns in H as (grid & Hgrid & H).
  apply bind_returns in H as (ns & Hns & H).
  apply bind_returns in H as (els & Hels & [= <-]).
  exists grid. simpl. done.
Qed.

Lemma gridRow_length cx j ns :
  length (gridRow drawingElements meshSize interiorTemp exteriorTemp cx j ns)
  = length ns + cx.
Proof.
  unfold gridRow. generalize 0 at 1. revert ns.
  induction cx as [|cx IH]; intros ns k; simpl; [lia|].
  rewrite IH, length_app. simpl. lia.
Qed.

Lemma gridNodes_length cx cy :
  length (gridNodes drawingElements meshSize interiorTemp exteriorTemp cx cy)
  = cx * cy.
Proof.
  unfold gridNodes.
  enough (H : forall k ns,
    length (foldl (fun ns j =>
              gridRow drawingElements meshSize interiorTemp exteriorTemp cx j ns)
            ns (seq k cy)) = length ns + cx * cy).
  { rewrite H. simpl. lia. }
  induction cy as [|cy IH]; intros k ns; simpl; [lia|].
  rewrite IH, gridRow_length. lia.
Qed.

Lemma gridStage_length grid :
  gridStage drawingElements meshSize interiorTemp exteriorTemp = Returns grid ->
  length grid = gridColumns drawingElements meshSize * gridRows drawingElements meshSize.
Proof.
  unfold gridStage, gridRows, gridColumns.
  destruct (Js.countLt (ny _ _)) as [[|cy]|]; [|intros H|done].
  - intros [= <-]. simpl. lia.
  - apply bind_returns in H as (cx & Hcx & H).
    apply checkLength_returns in H as ->.
    destruct (Js.countLt (nx _ _)); [|done]. injection Hcx as ->.
    simpl. apply gridNodes_length.
Qed.

Lemma cellElements_spec ns cx cy j i els els' :
  j < cy - 1 -> i < cx - 1 ->
  cellElements drawingElements ns cx j i els = Returns els' ->
  exists e1 e2, els' = els ++ [e1; e2]
    /\ cornersBelow (length ns) e1 /\ cornersBelow (length ns) e2
    /\ cornersBelow (cx * cy) e1 /\ cornersBelow (cx * cy) e2.
Proof.
  intros Hj Hi. unfold cellElements. intros H.
  apply bind_returns in H as (nbl & Hbl & H).
  apply bind_returns in H as (ntr & Htr & H).
  apply bind_returns in H as (found & _ & [= <-]).
  apply at_returns, lookup_lt_Some in Htr.
  eexists _, _. split; [reflexivity|].
  unfold cornersBelow; simpl. repeat split; nia.
Qed.

Lemma triangulate_spec ns cx cy els :
  triangulate drawingElements ns cx cy = Returns els ->
  Forall (cornersBelow (length ns)) els /\ Forall (cornersBelow (cx * cy)) els
  /\ length els = 2 * ((cx - 1) * (cy - 1)).
Proof.
  unfold triangulate. intros H.
  apply bind_returns in H as (els0 & H & Hc).
  apply checkLength_returns in Hc as ->.
  set (Q := fun (done : nat) (l : list MeshElement) =>
              Forall (cornersBelow (length ns)) l
              /\ Forall (cornersBelow (cx * cy)) l
              /\ length l = 2 * done).
  enough (Hrow : forall j k els1 els2,
    j < cy - 1 -> Q k els1 ->
    forEach (seq 0 (cx - 1)) (fun i els => cellElements drawingElements ns cx j i els) els1
      = Returns els2 -> Q (k + (cx - 1)) els2).
  { enough (Hall : forall m j0 k els1 els2,
      j0 + m <= cy - 1 -> Q k els1 ->
      forEach (seq j0 m)
        (fun j els => forEach (seq 0 (cx - 1))
                        (fun i els => cellElements drawingElements ns cx j i els) els)
        els1 = Returns els2 -> Q (k + (cx - 1) * m) els2).
    { specialize (Hall (cy - 1) 0 0 [] els0).
      replace (0 + (cx - 1) * (cy - 1)) with ((cx - 1) * (cy - 1)) in Hall by lia.
      apply Hall; [lia| |done]. repeat split; constructor. }
    induction m as [|m IH]; intros j0 k els1 els2 Hm HQ; simpl.
    - intros [= <-]. by replace (k + (cx - 1) * 0) with k by lia.
    - intros H1. apply bind_returns in H1 as (els3 & H3 & H1).
      replace (k + (cx - 1) * S m) with ((k + (cx - 1)) + (cx - 1) * m) by lia.
      apply (IH (S j0) _ els3); [lia| |done].
      apply (Hrow j0 k els1); [lia|done|done]. }
  intros j k els1 els2 Hj HQ.
  enough (Hcells : forall m i0 k1 l1 l2,
    i0 + m <= cx - 1 -> Q k1 l1 ->
    forEach (seq i0 m) (fun i els => cellElements drawingElements ns cx j i els) l1
      = Returns l2 -> Q (k1 + m) l2).
  { apply Hcells; [lia|done]. }
  induction m as [|m IH]; intros i0 k1 l1 l2 Hm HQ1; simpl.
  - intros [= <-]. by replace (k1 + 0) with k1 by lia.
  - intros H1. apply bind_returns in H1 as (l3 & H3 & H1).
    replace (k1 + S m) with (S k1 + m) by lia.
    apply (IH (S i0) _ l3); [lia| |done].
    apply (cellElements_spec ns cx cy) in H3 as (e1 & e2 & -> & ? & ? & ? & ?);
      [|lia|lia].
    destruct HQ1 as (Q1 & Q2 & Q3). repeat split.
    + apply Forall_app. split; [done|]. repeat constructor; done.
    + apply Forall_app. split; [done|]. repeat constructor; done.
    + rewrite length_app. simpl. lia.
Qed.

End GeneratedMesh.

(** ** Whole numbers as loop bounds *)



(** ** Well-formedness of generated meshes *)

(** The four kinds of grid node: left edge, right edge, top or bottom
    edge, inside. *)
Lemma gridNode_kinds des meshSize interiorTemp exteriorTemp nodeId i j :
  let node := gridNode des meshSize interiorTemp exteriorTemp nodeId i j in
  (boundaryType node = Some exterior /\ fixed node = true /\ isBoundary node = true)
  \/ (boundaryType node = Some interior /\ fixed node = true /\ isBoundary node = true)
  \/ (boundaryType node = Some adiabatic /\ fixed node = false)
  \/ (boundaryType node = None /\ fixed node = false).
Proof.
  unfold gridNode. cbv zeta.
  destruct (abs _ <? 0.001)%float; simpl; [by left|].
  destruct (abs _ <? 0.001)%float; simpl; [by right; left|].
  destruct (abs _ <? 0.001)%float; simpl.
  - destruct (abs _ <? 0.001)%float; simpl; right; right; by left.
  - destruct (abs _ <? 0.001)%float; simpl; right; right; [by left|by right].
Qed.

Lemma gridNode_fixedIsBoundary des meshSize interiorTemp exteriorTemp nodeId i j :
  fixedIsBoundary (gridNode des meshSize interiorTemp exteriorTemp nodeId i j).
Proof.
  unfold fixedIsBoundary.
  destruct (gridNode_kinds des meshSize interiorTemp exteriorTemp nodeId i j)
    as [(_ & _ & H)|[(_ & _ & H)|[(_ & H)|(_ & H)]]]; congruence.
Qed.

(** C4: in every mesh that [generateMesh] returns, a fixed node is a
    boundary node, and the three node indices of every element lie
    below the number of nodes. *)
Theorem generated_mesh_well_formed
  des meshSize adaptiveFactor interiorTemp exteriorTemp mesh :
  generateMesh des meshSize adaptiveFactor interiorTemp exteriorTemp = Returns mesh ->
  Forall fixedIsBoundary (meshNodes mesh)
  /\ Forall (cornersBelow (length (meshNodes mesh))) (meshElements mesh).
Proof.
  intros H. apply generateMesh_stages in H as (grid & Hgrid & Hns & Hels).
  split.
  - apply (gridStage_all _ _ _ _ fixedIsBoundary) in Hgrid;
      [|apply gridNode_fixedIsBoundary].
    apply (refineStage_pushed _ _ _ fixedIsBoundary) in Hns as (added & -> & Hadd);
      [|intros; discriminate].
    by apply Forall_app.
  - by apply triangulate_spec in Hels as (H1 & _ & _).
Qed.

Lemma generated_mesh_well_formed_witness :
  match generateMesh oneRegion 5 0.3 20 0 with
  | Returns mesh =>
      Forall fixedIsBoundary (meshNodes mesh)
      /\ Forall (cornersBelow (length (meshNodes mesh))) (meshElements mesh)
  | Fails _ => False
  end.
Proof.
  destruct (generateMesh oneRegion 5 0.3 20 0) as [mesh|f] eqn:E.
  - exact (generated_mesh_well_formed _ _ _ _ _ _ E).
  - vm_compute in E. discriminate E.
Defined.

(** ** Grid dimensions *)



(** ** Refinement nodes *)

(** C6: the elements of a generated mesh only join nodes of the
    structured grid, whose indices are below [nx * ny]; the nodes the
    refinement appends come after them in the node list, so no triangle
    has one of them as a corner. *)
Theorem refined_nodes_disconnected
  des meshSize adaptiveFactor interiorTemp exteriorTemp mesh :
  generateMesh des meshSize adaptiveFactor interiorTemp exteriorTemp = Returns mesh ->
  exists grid refined,
    gridStage des meshSize interiorTemp exteriorTemp = Returns grid
    /\ meshNodes mesh = grid ++ refined
    /\ length grid = gridColumns des meshSize * gridRows des meshSize
    /\ Forall freeInteriorNode refined
    /\ Forall (cornersBelow (length grid)) (meshElements mesh)
    /\ forall k element,
         length grid <= k -> element ∈ meshElements mesh ->
         includesNode element k = false.
Proof.
  intros H. apply generateMesh_stages in H as (grid & Hgrid & Hns & Hels).
  apply (refineStage_pushed _ _ _ freeInteriorNode) in Hns as (refined & Hns & Hfree);
    [|by repeat split].
  pose proof (gridStage_length _ _ _ _ _ Hgrid) as Hlen.
  apply triangulate_spec in Hels as (_ & Hbelow & _). rewrite <- Hlen in Hbelow.
  exists grid, refined. repeat split; try done.
  intros k element Hk Hin.
  rewrite Forall_forall in Hbelow. specialize (Hbelow _ Hin).
  unfold cornersBelow in Hbelow. unfold includesNode.
  destruct (nodes element) as [[i j] l]. destruct Hbelow as (Hi & Hj & Hl).
  rewrite !orb_false_iff. repeat split; apply Nat.eqb_neq; lia.
Qed.

Lemma refined_nodes_disconnected_witness :
  match generateMesh twoRegions 5 0.5 20 0 with
  | Returns mesh =>
      exists grid refined,
        gridStage twoRegions 5 20 0 = Returns grid
        /\ meshNodes mesh = grid ++ refined
        /\ length grid = gridColumns twoRegions 5 * gridRows twoRegions 5
        /\ Forall freeInteriorNode refined
        /\ Forall (cornersBelow (length grid)) (meshElements mesh)
        /\ forall k element,
             length grid <= k -> element ∈ meshElements mesh ->
             includesNode element k = false
  | Fails _ => False
  end.
Proof.
  destruct (generateMesh twoRegions 5 0.5 20 0) as [mesh|f] eqn:E.
  - exact (refined_nodes_disconnected _ _ _ _ _ _ E).
  - vm_compute in E. discriminate E.
Defined.

(** ** The solver returns *)

Lemma corners_in_range ns element :
  cornersBelow (length ns) element -> exists c, corners ns element = Returns c.
Proof.
  unfold cornersBelow, corners. destruct (nodes element) as [[i j] k].
  intros (Hi & Hj & Hk).
  destruct (at_in_range ns i Hi) as [ni ->].
  destruct (at_in_range ns j Hj) as [nj ->].
  destruct (at_in_range ns k Hk) as [nk ->]. simpl. eauto.
Qed.


Lemma assembleElement_in_range ns element K :
  cornersBelow (length ns) element ->
  exists K', assembleElement ns element K = Returns K'.
Proof.
  intros H. unfold assembleElement. destruct (nodes element) as [[i j] k] eqn:E.
  destruct (corners_in_range ns element H) as [[[ni nj] nk] ->]. simpl. eauto.
Qed.

Lemma assemble_in_range ns elements :
  Forall (cornersBelow (length ns)) elements ->
  exists K, assemble ns elements = Returns K.
Proof.
  intros H. apply forEach_returns. intros element K Hin.
  apply assembleElement_in_range. rewrite Forall_forall in H. auto.
Qed.


Lemma storeTemperatures_length ns T : length (storeTemperatures ns T) = length ns.
Proof. apply length_imap. Qed.

Lemma calculateHeatFlux_in_range mesh :
  elementsInRange mesh -> exists fl, calculateHeatFlux mesh = Returns fl.
Proof.
  intros H. apply mapM_returns. intros element Hin.
  unfold elementFlux. unfold elementsInRange in H. rewrite Forall_forall in H.
  destruct (corners_in_range _ _ (H _ Hin)) as [[[ni nj] nk] ->]. simpl. eauto.
Qed.

Lemma estimateTotalHeatFlow_in_range mesh :
  elementsInRange mesh -> exists q, estimateTotalHeatFlow mesh = Returns q.
Proof.
  intros H. apply forEach_returns. intros node total _.
  cbv beta zeta. destruct (isInteriorSurface node); [|eauto].
  edestruct (forEach_returns (addLocalFlow (meshNodes mesh) node)) as [q ->];
    [|simpl; eauto].
  intros element q Hin. apply list_elem_of_filter in Hin as [_ Hin].
  unfold addLocalFlow. unfold elementsInRange in H. rewrite Forall_forall in H.
  destruct (corners_in_range _ _ (H _ Hin)) as [[[ni nj] nk] ->]. simpl. eauto.
Qed.

Lemma findElementsInRegion_in_range mesh x1 y1 x2 y2 :
  elementsInRange mesh ->
  exists els, findElementsInRegion mesh x1 y1 x2 y2 = Returns els.
Proof.
  intros H. apply filterM_returns. intros element Hin.
  unfold elementsInRange in H. rewrite Forall_forall in H.
  destruct (corners_in_range _ _ (H _ Hin)) as [[[ni nj] nk] ->]. simpl. eauto.
Qed.

Lemma estimateOneDimensionalHeatFlow_in_range mesh minTemp maxTemp :
  elementsInRange mesh ->
  exists q, estimateOneDimensionalHeatFlow mesh minTemp maxTemp = Returns q.
Proof.
  intros H. apply forEach_returns. intros hwall q _. unfold wallFlow.
  destruct (_ && _); [|eauto].
  edestruct (findElementsInRegion_in_range mesh) as [els ->]; [done|].
  simpl. eauto.
Qed.

Lemma calculatePsiValue_in_range mesh minTemp maxTemp :
  elementsInRange mesh ->
  exists psi, calculatePsiValue mesh minTemp maxTemp = Returns psi.
Proof.
  intros H. unfold calculatePsiValue.
  destruct (estimateTotalHeatFlow_in_range mesh H) as [q1 ->].
  destruct (estimateOneDimensionalHeatFlow_in_range mesh minTemp maxTemp H) as [q2 ->].
  simpl. eauto.
Qed.

(** The shape of a returned result. *)
Lemma solveHeatTransferWith_returns h1 h2 mesh maxIterations tolerance r :
  solveHeatTransferWith h1 h2 mesh maxIterations tolerance = Returns r ->
  exists K F error T,
    buildSystem h1 h2 mesh = Returns (K, F)
    /\ gaussSeidel K F (meshNodes mesh) maxIterations tolerance = (error, T)
    /\ resNodes r = storeTemperatures (meshNodes mesh) T
    /\ resElements r = meshElements mesh
    /\ minTemperature r = Js.minOf T
    /\ maxTemperature r = Js.maxOf T
    /\ fRsiValue r
       = calculateFRsiValue (mkMesh (resNodes r) (resElements r))
           (minTemperature r) (maxTemperature r).
Proof.
  unfold solveHeatTransferWith. intros H.
  apply bind_returns in H as ([K F] & HKF & H).
  destruct (gaussSeidel K F (meshNodes mesh) maxIterations tolerance) as [error T] eqn:E.
  apply bind_returns in H as (psi & _ & H).
  apply bind_returns in H as (fl & _ & [= <-]).
  exists K, F, error, T. simpl. done.
Qed.

Lemma solveHeatTransferWith_in_range h1 h2 mesh maxIterations tolerance :
  elementsInRange mesh ->
  exists r, solveHeatTransferWith h1 h2 mesh maxIterations tolerance = Returns r.
Proof.
  intros H. unfold solveHeatTransferWith, buildSystem.
  destruct (assemble_in_range _ _ H) as [K ->]. simpl.
  destruct (applyBoundaryConditions _ _ _ _) as [K' F'].
  destruct (gaussSeidel _ _ _ _ _) as [error T].
  set (mesh' := mkMesh _ _).
  assert (H' : elementsInRange mesh').
  { unfold elementsInRange, mesh'. simpl. by rewrite storeTemperatures_length. }
  destruct (calculatePsiValue_in_range mesh' (Js.minOf T) (Js.maxOf T) H') as [psi ->].
  destruct (calculateHeatFlux_in_range mesh' H') as [fl ->].
  simpl. eauto.
Qed.

(** ** What the solver leaves unchanged *)

Lemma imap_sameButTemperature (f : nat -> MeshNode -> MeshNode) ns :
  (forall i node, sameButTemperature node (f i node)) ->
  Forall2 sameButTemperature ns (imap f ns).
Proof.
  revert f. induction ns as [|node ns IH]; intros f Hf; simpl; constructor.
  - apply Hf.
  - apply IH. intros i node'. apply Hf.
Qed.

(** C9: a call of [solveHeatTransfer] that returns has changed nothing
    but temperatures: the nodes are the same, in the same order, in all
    of [id], [x], [y], [fixed], [isBoundary] and [boundaryType], and the
    element list is the one of the input mesh. *)
Theorem solve_changes_only_temperatures mesh maxIterations tolerance r :
  solveHeatTransfer mesh maxIterations tolerance = Returns r ->
  Forall2 sameButTemperature (meshNodes mesh) (resNodes r)
  /\ resElements r = meshElements mesh.
Proof.
  intros H.
  apply solveHeatTransferWith_returns in H
    as (K & F & error & T & _ & _ & -> & -> & _).
  split; [|done]. apply imap_sameButTemperature.
  intros i node. by repeat split.
Qed.

Lemma solve_changes_only_temperatures_witness :
  match solveHeatTransfer convectiveMesh 1000 0.000001 with
  | Returns r =>
      Forall2 sameButTemperature (meshNodes convectiveMesh) (resNodes r)
      /\ resElements r = meshElements convectiveMesh
  | Fails _ => False
  end.
Proof.
  destruct (solveHeatTransfer convectiveMesh 1000 0.000001) as [r|f] eqn:E.
  - exact (solve_changes_only_temperatures _ _ _ _ E).
  - vm_compute in E. discriminate E.
Defined.

(** ** Boundary conditions *)

Lemma foldl_ext_in {A B} (f g : A -> B -> A) (l : list B) (a : A) :
  (forall a b, b ∈ l -> f a b = g a b) -> foldl f a l = foldl g a l.
Proof.
  revert a. induction l as [|b l IH]; intros a H; simpl; [done|].
  rewrite H by left. apply IH. intros a' b' Hb'. apply H. by right.
Qed.

Lemma indexed_elem {A} (l : list A) (i : nat) (a : A) :
  (i, a) ∈ indexed l -> a ∈ l.
Proof. unfold indexed. intros H. by apply elem_of_zip_r in H. Qed.

Lemma applyBoundary_not_convective h1 h2 h1' h2' n KF i node :
  convective node = false ->
  applyBoundary h1 h2 n KF (i, node) = applyBoundary h1' h2' n KF (i, node).
Proof.
  unfold convective, applyBoundary. destruct KF as [K F].
  destruct (fixed node), (isBoundary node),
    (isInterior (boundaryType node)), (isExterior (boundaryType node));
    simpl; intros; congruence.
Qed.

Lemma applyBoundaryConditions_not_convective h1 h2 h1' h2' ns KF :
  Forall (fun node => convective node = false) ns ->
  applyBoundaryConditions h1 h2 ns KF = applyBoundaryConditions h1' h2' ns KF.
Proof.
  intros H. unfold applyBoundaryConditions. apply foldl_ext_in.
  intros KF' [i node] Hin. apply applyBoundary_not_convective.
  rewrite Forall_forall in H. apply H. by apply indexed_elem in Hin.
Qed.

Lemma solveHeatTransferWith_not_convective h1 h2 h1' h2' mesh maxIterations tolerance :
  Forall (fun node => convective node = false) (meshNodes mesh) ->
  solveHeatTransferWith h1 h2 mesh maxIterations tolerance
  = solveHeatTransferWith h1' h2' mesh maxIterations tolerance.
Proof.
  intros H. unfold solveHeatTransferWith, buildSystem.
  destruct (assemble _ _) as [K|f]; [|done]. simpl.
  by rewrite (applyBoundaryConditions_not_convective h1 h2 h1' h2').
Qed.

Lemma gridNode_surfaceTypeIsFixed des meshSize interiorTemp exteriorTemp nodeId i j :
  surfaceTypeIsFixed (gridNode des meshSize interiorTemp exteriorTemp nodeId i j).
Proof.
  unfold surfaceTypeIsFixed.
  destruct (gridNode_kinds des meshSize interiorTemp exteriorTemp nodeId i j)
    as [(_ & H & _)|[(_ & H & _)|[(E & _)|(E & _)]]];
    try done; rewrite E; discriminate.
Qed.

Lemma surfaceTypeIsFixed_not_convective node :
  surfaceTypeIsFixed node -> convective node = false.
Proof.
  unfold surfaceTypeIsFixed, convective.
  destruct (fixed node), (isBoundary node), (_ || _); simpl; intros H;
    try reflexivity; discriminate (H eq_refl).
Qed.

(** C10: in a generated mesh every node of type [interior] or
    [exterior] is fixed, so no node takes the convective branch of
    [solveHeatTransfer], and the result of the solver is the same
    whatever surface coefficients that branch uses: the constants 7.7
    and 25.0 reach the result only where the one-dimensional heat flow
    of the PSI estimate reads them. *)
Theorem generated_mesh_never_convective
  des meshSize adaptiveFactor interiorTemp exteriorTemp mesh :
  generateMesh des meshSize adaptiveFactor interiorTemp exteriorTemp = Returns mesh ->
  Forall surfaceTypeIsFixed (meshNodes mesh)
  /\ Forall (fun node => convective node = false) (meshNodes mesh)
  /\ forall hInterior hExterior maxIterations tolerance,
       solveHeatTransferWith hInterior hExterior mesh maxIterations tolerance
       = solveHeatTransfer mesh maxIterations tolerance.
Proof.
  intros H. apply generateMesh_stages in H as (grid & Hgrid & Hns & _).
  assert (Hall : Forall surfaceTypeIsFixed (meshNodes mesh)).
  { apply (gridStage_all _ _ _ _ surfaceTypeIsFixed) in Hgrid;
      [|apply gridNode_surfaceTypeIsFixed].
    apply (refineStage_pushed _ _ _ surfaceTypeIsFixed) in Hns as (added & -> & Hadd);
      [|intros; discriminate].
    by apply Forall_app. }
  assert (Hno : Forall (fun node => convective node = false) (meshNodes mesh)).
  { eapply Forall_impl; [exact Hall|]. apply surfaceTypeIsFixed_not_convective. }
  repeat split; [done|done|].
  intros. by apply solveHeatTransferWith_not_convective.
Qed.

Lemma generated_mesh_never_convective_witness :
  match generateMesh oneRegion 5 0.3 20 0 with
  | Returns mesh =>
      Forall surfaceTypeIsFixed (meshNodes mesh)
      /\ Forall (fun node => convective node = false) (meshNodes mesh)
      /\ forall hInterior hExterior maxIterations tolerance,
           solveHeatTransferWith hInterior hExterior mesh maxIterations tolerance
           = solveHeatTransfer mesh maxIterations tolerance
  | Fails _ => False
  end.
Proof.
  destruct (generateMesh oneRegion 5 0.3 20 0) as [mesh|f] eqn:E.
  - exact (generated_mesh_never_convective _ _ _ _ _ _ E).
  - vm_compute in E. discriminate E.
Defined.

(** ** The load vector of a convective node *)

Lemma readNum_insert_eq (F : list float) (i : nat) (v : float) :
  i < length F -> readNum (<[i := v]> F) i = v.
Proof. intros H. unfold readNum. by rewrite list_lookup_insert_eq. Qed.

Lemma readNum_insert_ne (F : list float) (i j : nat) (v : float) :
  i <> j -> readNum (<[i := v]> F) j = readNum F j.
Proof. intros H. unfold readNum. by rewrite list_lookup_insert_ne. Qed.

Lemma applyBoundary_load_length h1 h2 n KF inode :
  length (applyBoundary h1 h2 n KF inode).2 = length KF.2.
Proof.
  destruct KF as [K F], inode as [i node]. unfold applyBoundary.
  repeat case_match; simpl; by rewrite ?length_insert.
Qed.

Lemma applyBoundary_load_other h1 h2 n KF i node j :
  i <> j -> readNum (applyBoundary h1 h2 n KF (i, node)).2 j = readNum KF.2 j.
Proof.
  intros H. destruct KF as [K F]. unfold applyBoundary.
  repeat case_match; simpl; by rewrite ?readNum_insert_ne.
Qed.

(** The boundary conditions of the nodes from position [k] on leave the
    entries before [k] alone. *)
Lemma applyBoundary_later h1 h2 n (l : list MeshNode) :
  forall k KF i, i < k ->
    readNum (foldl (applyBoundary h1 h2 n) KF (zip (seq k (length l)) l)).2 i
    = readNum KF.2 i.
Proof.
  induction l as [|node l IH]; intros k KF i Hi; simpl; [done|].
  rewrite IH by lia. apply applyBoundary_load_other. lia.
Qed.

Lemma applyBoundary_at h1 h2 n (l : list MeshNode) :
  forall k KF i node, k <= i -> l !! (i - k) = Some node -> i < length KF.2 ->
    readNum (foldl (applyBoundary h1 h2 n) KF (zip (seq k (length l)) l)).2 i
    = readNum (applyBoundary h1 h2 n KF (i, node)).2 i.
Proof.
  induction l as [|node0 l IH]; intros k KF i node Hk Hl Hi; simpl; [done|].
  destruct (decide (i = k)) as [->|Hne].
  - rewrite Nat.sub_diag in Hl. injection Hl as ->.
    apply applyBoundary_later. lia.
  - replace (i - k) with (S (i - S k)) in Hl by lia. simpl in Hl.
    rewrite (IH (S k) _ i node); [|lia|done|by rewrite applyBoundary_load_length].
    destruct (applyBoundary h1 h2 n KF (k, node0)) as [K1 F1] eqn:E1.
    destruct KF as [K F].
    assert (HF : readNum F1 i = readNum F i).
    { change F1 with (K1, F1).2. rewrite <- E1.
      apply applyBoundary_load_other. lia. }
    assert (HL : length F1 = length F).
    { change F1 with (K1, F1).2. rewrite <- E1. apply applyBoundary_load_length. }
    unfold applyBoundary. simpl in Hi.
    repeat case_match; simpl; rewrite ?readNum_insert_eq by lia; congruence.
Qed.

(** C2 (as the code has it): for a free boundary node of type
    [interior] the boundary loop adds the interior coefficient times
    the constant 20 to the node's load entry, and for one of type
    [exterior] the exterior coefficient times the constant 0; the
    reference temperatures are these literals, the solver takes no
    such value from its caller. *)
Theorem convective_load_uses_literals ns K F i node :
  ns !! i = Some node -> length F = length ns ->
  fixed node = false -> isBoundary node = true ->
  let F' := (applyBoundaryConditions INTERIOR_HEAT_TRANSFER_COEFFICIENT
               EXTERIOR_HEAT_TRANSFER_COEFFICIENT ns (K, F)).2 in
  (isInterior (boundaryType node) = true ->
     readNum F' i = (readNum F i + INTERIOR_HEAT_TRANSFER_COEFFICIENT * 20)%float)
  /\ (isExterior (boundaryType node) = true ->
     readNum F' i = (readNum F i + EXTERIOR_HEAT_TRANSFER_COEFFICIENT * 0)%float).
Proof.
  intros Hnode Hlen Hfixed Hb. simpl.
  assert (Hi : i < length F) by (rewrite Hlen; by eapply lookup_lt_Some).
  unfold applyBoundaryConditions, indexed.
  rewrite (applyBoundary_at _ _ _ ns 0 (K, F) i node); [|lia| |done].
  2: { by rewrite Nat.sub_0_r. }
  unfold applyBoundary. rewrite Hfixed, Hb.
  split; intros Ht.
  - rewrite Ht. simpl. by rewrite readNum_insert_eq.
  - destruct (isInterior (boundaryType node)) eqn:E.
    + destruct (boundaryType node) as [[]|]; discriminate.
    + rewrite Ht. simpl. by rewrite readNum_insert_eq.
Qed.

Lemma convective_load_uses_literals_witness :
  readNum (applyBoundaryConditions INTERIOR_HEAT_TRANSFER_COEFFICIENT
             EXTERIOR_HEAT_TRANSFER_COEFFICIENT (meshNodes convectiveMesh)
             (∅, [0; 0; 0]%float)).2 0
  = (readNum [0; 0; 0]%float 0 + INTERIOR_HEAT_TRANSFER_COEFFICIENT * 20)%float.
Proof.
  refine (proj1 (convective_load_uses_literals (meshNodes convectiveMesh) ∅
                   [0; 0; 0]%float 0
                   (mkNode 0 0 0 0 false true (Some interior)) _ _ _ _) _);
    reflexivity.
Defined.

(** Against C2 as stated: with an interior design temperature of 25
    degrees configured, the load entry of the convective node of [convectiveMesh] still grows
    by 7.7 * 20 = 154, not by 7.7 * 25. *)
Lemma convective_load_ignores_configuration :
  readNum (applyBoundaryConditions INTERIOR_HEAT_TRANSFER_COEFFICIENT
             EXTERIOR_HEAT_TRANSFER_COEFFICIENT (meshNodes convectiveMesh)
             (∅, [0; 0; 0]%float)).2 0 = 154%float
  /\ ~ loadFollowsConfiguredReference 25.
Proof.
  split; [reflexivity|].
  intros H.
  specialize (H (meshNodes convectiveMesh) ∅ [0; 0; 0]%float 0
                (mkNode 0 0 0 0 false true (Some interior))
                eq_refl eq_refl eq_refl eq_refl eq_refl).
  vm_compute in H. discriminate H.
Qed.

(** ** Facts about binary64 numbers *)

Section Binary64.

Local Open Scope float_scope.






End Binary64.

(** ** A missing diagonal entry *)

Lemma foldl_indexed_cons {A B} (f : A -> nat * B -> A) (a : A) (k : nat)
  (b : B) (l : list B) :
  foldl f a (zip (seq k (length (b :: l))) (b :: l))
  = foldl f (f a (k, b)) (zip (seq (S k) (length l)) l).
Proof. reflexivity. Qed.

Section MissingDiagonal.

Local Open Scope float_scope.

Variables (K : SparseMatrix) (F : list float) (n i : nat).
Hypothesis missing : K !! (i, i) = None.






End MissingDiagonal.


Lemma storeTemperatures_lookup ns T i node :
  ns !! i = Some node ->
  storeTemperatures ns T !! i = Some (setTemperature node (readNum T i)).
Proof. intros H. unfold storeTemperatures. by rewrite list_lookup_imap, H. Qed.





(** ** The iteration cap *)




(** ** The empty region list *)

Section EmptyRegions.

Local Open Scope float_scope.









End EmptyRegions.




(** ** The order of binary64 numbers *)

Section FloatOrder.

Local Open Scope Z_scope.









End FloatOrder.

Section MinMax.

Local Open Scope float_scope.










End MinMax.

(** ** The surface temperature factor *)

Section SurfaceFactor.

Local Open Scope float_scope.







End SurfaceFactor.




(** * Further properties of the code *)

(** ** Ids, kinds of nodes and triangles of a generated mesh *)

Lemma id_gridNode des meshSize interiorTemp exteriorTemp nodeId i j :
  id (gridNode des meshSize interiorTemp exteriorTemp nodeId i j) = nodeId.
Proof.
  unfold gridNode. cbv zeta.
  repeat (destruct (abs _ <? 0.001)%float; simpl); reflexivity.
Qed.

Lemma gridNode_classified des meshSize interiorTemp exteriorTemp nodeId i j :
  classified interiorTemp exteriorTemp
    (gridNode des meshSize interiorTemp exteriorTemp nodeId i j).
Proof.
  unfold classified, gridNode. cbv zeta.
  repeat (destruct (abs _ <? 0.001)%float; simpl); repeat split; reflexivity.
Qed.

Lemma idsArePositions_push ns node :
  idsArePositions ns -> id node = length ns -> idsArePositions (ns ++ [node]).
Proof.
  intros H Hid i node' Hl.
  apply lookup_app_Some in Hl as [Hl|[Hge Hl]]; [by apply H|].
  apply list_lookup_singleton_Some in Hl as [Hi ->]. lia.
Qed.

Lemma gridStage_ids des meshSize interiorTemp exteriorTemp grid :
  gridStage des meshSize interiorTemp exteriorTemp = Returns grid ->
  idsArePositions grid.
Proof.
  assert (Hnodes : forall cx cy,
    idsArePositions (gridNodes des meshSize interiorTemp exteriorTemp cx cy)).
  { intros cx cy. unfold gridNodes. apply foldl_invariant.
    - intros i node Hl. by rewrite lookup_nil in Hl.
    - intros ns j _ Hns. unfold gridRow. apply foldl_invariant; [done|].
      intros ns' i _ Hns'. apply idsArePositions_push; [done|].
      apply id_gridNode. }
  unfold gridStage. destruct (Js.countLt _) as [[|cy]|]; [|intros H|done].
  - intros [= <-] i node Hl. by rewrite lookup_nil in Hl.
  - apply bind_returns in H as (cx & _ & H).
    apply checkLength_returns in H as ->. apply Hnodes.
Qed.

Lemma refineStage_ids des meshSize adaptiveFactor grid ns :
  refineStage des meshSize adaptiveFactor grid = Returns ns ->
  idsArePositions grid -> idsArePositions ns.
Proof.
  unfold refineStage. destruct (findJunctions _) as [|junction junctions].
  - by intros [= <-].
  - intros H Hgrid. apply bind_returns in H as (rc & _ & H).
    apply checkLength_returns in H as ->.
    apply foldl_invariant; [done|]. intros ns1 jn _ H1.
    unfold refineAt. apply foldl_invariant; [done|]. intros ns2 j _ H2.
    apply foldl_invariant; [done|]. intros ns3 i _ H3.
    unfold refineCandidate. repeat case_match; try done.
    by apply idsArePositions_push.
Qed.

(** The elements the cell loops push. *)
Lemma cellElements_shape des ns cx j i els els' :
  cellElements des ns cx j i els = Returns els' ->
  exists m,
    materialFromInput des m
    /\ els' = els ++ [mkElement (length els)
                        (j * cx + i, j * cx + i + 1, (j + 1) * cx + i + 1) m;
                      mkElement (S (length els))
                        (j * cx + i, (j + 1) * cx + i + 1, (j + 1) * cx + i) m].
Proof.
  unfold cellElements. intros H.
  apply bind_returns in H as (nbl & _ & H).
  apply bind_returns in H as (ntr & _ & H).
  apply bind_returns in H as (found & Hfound & [= <-]).
  exists (default air found). split; [|reflexivity].
  destruct found as [m|]; [|by left]. right. simpl.
  clear -Hfound. revert Hfound. generalize (mkPoint ((x nbl + x ntr) / 2)
                                              ((y nbl + y ntr) / 2)).
  intros p. induction des as [|d des IH]; simpl; [discriminate|].
  destruct (isRectangle (elType d)) eqn:Hr.
  - destruct (material d) as [mat|] eqn:Hm.
    + destruct (points d) as [|p1 [|p2 ps]]; try discriminate.
      destruct (_ && _).
      * intros [= ->]. exists d. split; [left|done].
      * intros H. destruct (IH H) as (d' & Hin & Hd'). exists d'.
        split; [by right|done].
    + intros H. destruct (IH H) as (d' & Hin & Hd'). exists d'.
      split; [by right|done].
  - intros H. destruct (IH H) as (d' & Hin & Hd'). exists d'.
    split; [by right|done].
Qed.

(** An invariant of the element list through the cell loops. *)
Lemma triangulate_invariant des ns cx cy (Q : list MeshElement -> Prop) els :
  Q [] ->
  (forall l j i m,
     j < cy - 1 -> i < cx - 1 -> Q l -> materialFromInput des m ->
     Q (l ++ [mkElement (length l)
                (j * cx + i, j * cx + i + 1, (j + 1) * cx + i + 1) m;
              mkElement (S (length l))
                (j * cx + i, (j + 1) * cx + i + 1, (j + 1) * cx + i) m])) ->
  triangulate des ns cx cy = Returns els -> Q els.
Proof.
  intros Hnil Hstep. unfold triangulate. intros H.
  apply bind_returns in H as (els0 & H & Hc).
  apply checkLength_returns in Hc as ->.
  apply (forEach_invariant Q _ _ _ _ Hnil) in H; [done|].
  intros j l1 l2 Hj Hl1 Hrow. apply elem_of_seq in Hj.
  apply (forEach_invariant Q _ _ _ _ Hl1) in Hrow; [done|].
  intros i l3 l4 Hi Hl3 Hcell. apply elem_of_seq in Hi.
  apply cellElements_shape in Hcell as (m & Hm & ->).
  apply Hstep; [lia|lia|done|done].
Qed.

(** X1: in a generated mesh the [id] of every node is its position in
    the node list, and the [id] of every element its position in the
    element list. *)
Theorem generated_ids_are_positions
  des meshSize adaptiveFactor interiorTemp exteriorTemp mesh :
  generateMesh des meshSize adaptiveFactor interiorTemp exteriorTemp = Returns mesh ->
  idsArePositions (meshNodes mesh)
  /\ elementIdsArePositions (meshElements mesh).
Proof.
  intros H. apply generateMesh_stages in H as (grid & Hgrid & Hns & Hels).
  split.
  - eapply refineStage_ids; [exact Hns|]. by eapply gridStage_ids.
  - apply (triangulate_invariant _ _ _ _ elementIdsArePositions) in Hels; [done| |].
    + intros k e Hl. by rewrite lookup_nil in Hl.
    + intros l j i m _ _ Hl _ k e Hk.
      apply lookup_app_Some in Hk as [Hk|[Hge Hk]]; [by apply Hl|].
      destruct (k - length l) as [|[|n]] eqn:E; simpl in Hk;
        [injection Hk as <-; simpl; lia|injection Hk as <-; simpl; lia|done].
Qed.

Lemma generated_ids_are_positions_witness :
  match generateMesh twoRegions 5 0.5 20 0 with
  | Returns mesh =>
      idsArePositions (meshNodes mesh)
      /\ elementIdsArePositions (meshElements mesh)
  | Fails _ => False
  end.
Proof.
  destruct (generateMesh twoRegions 5 0.5 20 0) as [mesh|f] eqn:E.
  - exact (generated_ids_are_positions _ _ _ _ _ _ E).
  - vm_compute in E. discriminate E.
Defined.

(** X2: in a generated mesh the boundary type tells the rest of a
    node: [exterior] nodes are fixed boundary nodes at the exterior
    temperature, [interior] nodes fixed boundary nodes at the interior
    temperature, [adiabatic] nodes free boundary nodes at 0, and a node
    without type is a free node off the boundary at 0. *)
Theorem generated_nodes_are_classified
  des meshSize adaptiveFactor interiorTemp exteriorTemp mesh :
  generateMesh des meshSize adaptiveFactor interiorTemp exteriorTemp = Returns mesh ->
  Forall (classified interiorTemp exteriorTemp) (meshNodes mesh).
Proof.
  intros H. apply generateMesh_stages in H as (grid & Hgrid & Hns & _).
  apply (gridStage_all _ _ _ _ (classified interiorTemp exteriorTemp)) in Hgrid;
    [|apply gridNode_classified].
  apply (refineStage_pushed _ _ _ (classified interiorTemp exteriorTemp)) in Hns
    as (added & -> & Hadd); [|intros; by repeat split].
  by apply Forall_app.
Qed.

Lemma generated_nodes_are_classified_witness :
  match generateMesh oneRegion 5 0.3 21 (-5) with
  | Returns mesh => Forall (classified 21 (-5)) (meshNodes mesh)
  | Fails _ => False
  end.
Proof.
  destruct (generateMesh oneRegion 5 0.3 21 (-5)) as [mesh|f] eqn:E.
  - exact (generated_nodes_are_classified _ _ _ _ _ _ E).
  - vm_compute in E. discriminate E.
Defined.
(** ** Triangles and their materials *)

Lemma lookup_two_more {A} (l : list A) (a b : A) (k n : nat) (e1 e2 : A) :
  length l = 2 * n ->
  (l ++ [a; b]) !! (2 * k) = Some e1 -> (l ++ [a; b]) !! (2 * k + 1) = Some e2 ->
  (l !! (2 * k) = Some e1 /\ l !! (2 * k + 1) = Some e2)
  \/ (e1 = a /\ e2 = b).
Proof.
  intros Hlen H1 H2.
  apply lookup_app_Some in H1 as [H1|[Hge1 H1]];
  apply lookup_app_Some in H2 as [H2|[Hge2 H2]].
  - by left.
  - apply lookup_lt_Some in H1. lia.
  - apply lookup_lt_Some in H2. lia.
  - right. replace (2 * k - length l) with (2 * (k - n)) in H1 by lia.
    replace (2 * k + 1 - length l) with (2 * (k - n) + 1) in H2 by lia.
    destruct (k - n) as [|m]; simpl in *; [by injection H1; injection H2|].
    replace (m + S (m + 0)) with (S (m + m)) in H1 by lia. done.
Qed.

(** X3: every triangle of a generated mesh has three distinct corners,
    and the triangles come in pairs: the elements at positions [2k]
    and [2k + 1] are the halves of one grid cell, with the same
    material and a common diagonal. *)
Theorem generated_triangles_are_cell_halves
  des meshSize adaptiveFactor interiorTemp exteriorTemp mesh :
  generateMesh des meshSize adaptiveFactor interiorTemp exteriorTemp = Returns mesh ->
  Forall distinctCorners (meshElements mesh)
  /\ (exists n, length (meshElements mesh) = 2 * n)
  /\ forall k e1 e2,
       meshElements mesh !! (2 * k) = Some e1 ->
       meshElements mesh !! (2 * k + 1) = Some e2 ->
       halvesOfOneCell e1 e2.
Proof.
  intros H. apply generateMesh_stages in H as (grid & _ & _ & Hels).
  apply (triangulate_invariant _ _ _ _
           (fun l => Forall distinctCorners l
                     /\ (exists n, length l = 2 * n)
                     /\ forall k e1 e2, l !! (2 * k) = Some e1 ->
                                        l !! (2 * k + 1) = Some e2 ->
                                        halvesOfOneCell e1 e2)) in Hels; [done| |].
  - split; [constructor|]. split; [by exists 0|].
    intros k e1 e2 Hk. by rewrite lookup_nil in Hk.
  - intros l j i m Hj Hi (Hd & [n Hn] & Hp) _. split; [|split].
    + apply Forall_app. split; [done|].
      repeat constructor; unfold distinctCorners; simpl; nia.
    + exists (S n). rewrite length_app. simpl. lia.
    + intros k e1 e2 H1 H2.
      destruct (lookup_two_more _ _ _ _ _ _ _ Hn H1 H2) as [[H1' H2']|[-> ->]];
        [by eapply Hp|].
      unfold halvesOfOneCell. simpl. done.
Qed.

Lemma generated_triangles_are_cell_halves_witness :
  match generateMesh oneRegion 5 0.3 20 0 with
  | Returns mesh =>
      Forall distinctCorners (meshElements mesh)
      /\ (exists n, length (meshElements mesh) = 2 * n)
      /\ forall k e1 e2,
           meshElements mesh !! (2 * k) = Some e1 ->
           meshElements mesh !! (2 * k + 1) = Some e2 ->
           halvesOfOneCell e1 e2
  | Fails _ => False
  end.
Proof.
  destruct (generateMesh oneRegion 5 0.3 20 0) as [mesh|f] eqn:E.
  - exact (generated_triangles_are_cell_halves _ _ _ _ _ _ E).
  - vm_compute in E. discriminate E.
Defined.

(** X4: the material of every triangle of a generated mesh is the
    built-in air or the material of a rectangle of the drawing; lines,
    circles and the other kinds of element never give a material. *)
Theorem generated_materials_come_from_rectangles
  des meshSize adaptiveFactor interiorTemp exteriorTemp mesh :
  generateMesh des meshSize adaptiveFactor interiorTemp exteriorTemp = Returns mesh ->
  Forall (fun element => materialFromInput des (emat element)) (meshElements mesh).
Proof.
  intros H. apply generateMesh_stages in H as (grid & _ & _ & Hels).
  apply (triangulate_invariant _ _ _ _
           (Forall (fun element => materialFromInput des (emat element))))
    in Hels; [done|constructor|].
  intros l j i m _ _ Hl Hm. apply Forall_app. split; [done|].
  constructor; [done|]. constructor; [done|]. constructor.
Qed.

Lemma generated_materials_come_from_rectangles_witness :
  match generateMesh oneRegion 5 0.3 20 0 with
  | Returns mesh =>
      Forall (fun element => materialFromInput oneRegion (emat element))
             (meshElements mesh)
  | Fails _ => False
  end.
Proof.
  destruct (generateMesh oneRegion 5 0.3 20 0) as [mesh|f] eqn:E.
  - exact (generated_materials_come_from_rectangles _ _ _ _ _ _ E).
  - vm_compute in E. discriminate E.
Defined.

(** ** When [generateMesh] throws *)

Lemma bind_fails {A B} (o : Outcome A) (k : A -> Outcome B) (f : Failure) :
  bind o k = Fails f -> o = Fails f \/ exists a, o = Returns a /\ k a = Fails f.
Proof. destruct o as [a|f']; simpl; [eauto|intros [= ->]; by left]. Qed.

Lemma forEach_fails {A S} (body : A -> S -> Outcome S) (l : list A) (s : S)
  (f : Failure) :
  forEach l body s = Fails f -> exists a s1, a ∈ l /\ body a s1 = Fails f.
Proof.
  revert s. induction l as [|a l IH]; intros s; simpl; [discriminate|].
  intros H. apply bind_fails in H as [H|(s1 & _ & H)].
  - exists a, s. split; [left|done].
  - destruct (IH _ H) as (a' & s' & Hin & H'). exists a', s'.
    split; [by right|done].
Qed.

Lemma checkLength_fails {A} (l : list A) (f : Failure) :
  checkLength l = Fails f -> f = ResourceExhausted.
Proof. unfold checkLength. case_match; congruence. Qed.

Lemma finite_fails c f : finite c = Fails f -> f = ResourceExhausted.
Proof. destruct c; simpl; congruence. Qed.

Lemma findMaterialAtPoint_total des point :
  forallb hasCornersIfTagged des = true ->
  exists found, findMaterialAtPoint des point = Returns found.
Proof.
  induction des as [|d des IH]; simpl; [eauto|].
  intros H. apply andb_true_iff in H as [Hd Hdes]. specialize (IH Hdes).
  unfold hasCornersIfTagged in Hd.
  destruct (isRectangle (elType d)); [|done].
  destruct (material d) as [mat|]; [|done]. simpl in Hd.
  destruct (points d) as [|p1 [|p2 ps]]; try discriminate Hd.
  destruct (_ && _); eauto.
Qed.

Lemma cellElements_in_range des ns cx cy j i els :
  forallb hasCornersIfTagged des = true ->
  cx * cy <= length ns -> j < cy - 1 -> i < cx - 1 ->
  exists els', cellElements des ns cx j i els = Returns els'.
Proof.
  intros Hdes Hlen Hj Hi. unfold cellElements.
  destruct (at_in_range ns (j * cx + i)) as [nbl ->]; [nia|].
  destruct (at_in_range ns ((j + 1) * cx + i + 1)) as [ntr ->]; [nia|].
  simpl.
  destruct (findMaterialAtPoint_total des
              (mkPoint ((x nbl + x ntr) / 2) ((y nbl + y ntr) / 2)) Hdes)
    as [found ->].
  simpl. eauto.
Qed.

Lemma triangulate_fails des ns cx cy f :
  forallb hasCornersIfTagged des = true -> cx * cy <= length ns ->
  triangulate des ns cx cy = Fails f -> f = ResourceExhausted.
Proof.
  intros Hdes Hlen. unfold triangulate. intros H.
  apply bind_fails in H as [H|(els & _ & H)]; [|by apply checkLength_fails in H].
  apply forEach_fails in H as (j & l1 & Hj & H). apply elem_of_seq in Hj.
  apply forEach_fails in H as (i & l2 & Hi & H). apply elem_of_seq in Hi.
  destruct (cellElements_in_range des ns cx cy j i l2) as [els' E]; try done; try lia.
  congruence.
Qed.

Lemma gridStage_fails des meshSize interiorTemp exteriorTemp f :
  gridStage des meshSize interiorTemp exteriorTemp = Fails f ->
  f = ResourceExhausted.
Proof.
  unfold gridStage. destruct (Js.countLt _) as [[|cy]|]; try congruence.
  intros H. apply bind_fails in H as [H|(cx & _ & H)].
  - by apply finite_fails in H.
  - by apply checkLength_fails in H.
Qed.

Lemma refineStage_fails des meshSize adaptiveFactor grid f :
  refineStage des meshSize adaptiveFactor grid = Fails f -> f = ResourceExhausted.
Proof.
  unfold refineStage. destruct (findJunctions _); [discriminate|].
  intros H. apply bind_fails in H as [H|(rc & _ & H)].
  - by apply finite_fails in H.
  - by apply checkLength_fails in H.
Qed.

(** A throw of [generateMesh] on a drawing whose tagged rectangles have
    their corners comes from a bound. *)
Lemma generateMesh_fails des meshSize adaptiveFactor interiorTemp exteriorTemp f :
  forallb hasCornersIfTagged des = true ->
  generateMesh des meshSize adaptiveFactor interiorTemp exteriorTemp = Fails f ->
  f = ResourceExhausted.
Proof.
  intros Hdes H. unfold generateMesh in H.
  apply bind_fails in H as [H|(grid & Hgrid & H)];
    [by apply gridStage_fails in H|].
  apply bind_fails in H as [H|(ns & Hns & H)];
    [by apply refineStage_fails in H|].
  apply bind_fails in H as [H|(els & _ & H)]; [|discriminate].
  apply triangulate_fails in H; [done|done|].
  apply (refineStage_pushed _ _ _ (fun _ => True)) in Hns as (added & -> & _);
    [|done].
  pose proof (gridStage_length _ _ _ _ _ Hgrid) as Hlen.
  unfold gridColumns, gridRows in Hlen. rewrite length_app. lia.
Qed.

(** X5: when every rectangle of the drawing that carries a material
    has at least two points, [generateMesh] never throws a [TypeError]:
    it returns a mesh, or its loops and arrays outgrow their bounds. *)
Theorem generateMesh_never_reads_undefined
  des meshSize adaptiveFactor interiorTemp exteriorTemp :
  forallb hasCornersIfTagged des = true ->
  generateMesh des meshSize adaptiveFactor interiorTemp exteriorTemp
  <> Fails TypeError.
Proof.
  intros Hdes H. by apply generateMesh_fails in H.
Qed.

Lemma generateMesh_never_reads_undefined_witness :
  generateMesh twoRegions 5 0.5 20 0 <> Fails TypeError.
Proof.
  apply (generateMesh_never_reads_undefined twoRegions 5 0.5 20 0).
  reflexivity.
Defined.
Lemma findMaterialAtPoint_without_corners d rest point mat :
  isRectangle (elType d) = true -> material d = Some mat ->
  length (points d) < 2 ->
  findMaterialAtPoint (d :: rest) point = Fails TypeError.
Proof.
  intros Hr Hm Hp. simpl. rewrite Hr, Hm.
  destruct (points d) as [|p1 [|p2 ps]]; simpl in Hp; [done|done|lia].
Qed.

(** X6: a drawing whose first element is a rectangle with a material
    but fewer than two points gives no triangle: the first cell throws
    a [TypeError], so a mesh is returned only when the grid has no
    cell. *)
Theorem rectangle_without_corners_gives_no_triangle
  d rest mat meshSize adaptiveFactor interiorTemp exteriorTemp mesh :
  isRectangle (elType d) = true -> material d = Some mat ->
  length (points d) < 2 ->
  generateMesh (d :: rest) meshSize adaptiveFactor interiorTemp exteriorTemp
  = Returns mesh ->
  meshElements mesh = [].
Proof.
  intros Hr Hm Hp H.
  apply generateMesh_stages in H as (grid & _ & _ & Hels).
  unfold triangulate in Hels.
  apply bind_returns in Hels as (els & Hels & Hc).
  apply checkLength_returns in Hc as ->.
  apply (forEach_invariant (fun l => l = [])) in Hels; [done|done|].
  intros j l1 l2 _ -> Hrow.
  apply (forEach_invariant (fun l => l = [])) in Hrow; [done|done|].
  intros i l3 l4 _ -> Hcell. exfalso.
  unfold cellElements in Hcell.
  apply bind_returns in Hcell as (nbl & _ & Hcell).
  apply bind_returns in Hcell as (ntr & _ & Hcell).
  apply bind_returns in Hcell as (found & Hfound & _).
  by rewrite (findMaterialAtPoint_without_corners d rest _ mat) in Hfound.
Qed.

Lemma rectangle_without_corners_gives_no_triangle_witness :
  match generateMesh [mkDrawing rectangle [] (Some sampleMaterial)] 5 0.3 20 0 with
  | Returns mesh => meshElements mesh = []
  | Fails _ => False
  end.
Proof.
  destruct (generateMesh [mkDrawing rectangle [] (Some sampleMaterial)] 5 0.3 20 0)
    as [mesh|f] eqn:E.
  - refine (rectangle_without_corners_gives_no_triangle
              (mkDrawing rectangle [] (Some sampleMaterial)) [] sampleMaterial
              5 0.3 20 0 mesh _ _ _ E); [reflexivity|reflexivity|simpl; lia].
  - vm_compute in E. discriminate E.
Defined.

(** With a single corner point the grid has cells and the call throws. *)
Example rectangle_with_one_point_throws :
  generateMesh [mkDrawing rectangle [mkPoint 0 0] (Some sampleMaterial)] 5 0.3 20 0
  = Fails TypeError.
Proof. vm_compute. reflexivity. Qed.

(** ** Junctions *)

Section Junctions.

Variable els : list DrawingElement.

Let isCorner (q : Point) : Prop := exists e, e ∈ els /\ q ∈ points e.

Let good (junctions : list Point) : Prop :=
  Forall isCorner junctions /\ junctionsApart junctions.

Lemma addJunction_good point1 point2 junctions :
  isCorner point1 -> good junctions -> good (addJunction point1 point2 junctions).
Proof.
  intros Hc [Hall Hapart]. unfold addJunction.
  destruct (distance _ _ _ _ <? junctionTolerance)%float; [|done].
  destruct (existsb _ junctions) eqn:Hnew; simpl; [done|].
  assert (Hq : mkPoint (px point1) (py point1) = point1) by by destruct point1.
  rewrite Hq. split.
  - apply Forall_app. split; [done|]. by repeat constructor.
  - intros i j q1 q2 Hij H1 H2.
    apply lookup_app_Some in H2 as [H2|[Hge H2]].
    + apply lookup_app_Some in H1 as [H1|[Hge1 _]]; [by eapply Hapart|].
      apply lookup_lt_Some in H2. lia.
    + apply list_lookup_singleton_Some in H2 as [Hj0 <-].
      apply lookup_app_Some in H1 as [H1|[Hge1 H1]].
      * apply not_true_is_false. intros Hclose.
        assert (existsb (fun junction =>
                  (distance (px junction) (py junction) (px point1) (py point1)
                   <? junctionTolerance)%float) junctions = true) as Hex.
        { apply existsb_exists. exists q1. split; [|done].
          apply list_elem_of_In. by eapply list_elem_of_lookup_2. }
        rewrite Hnew in Hex. discriminate Hex.
      * apply list_lookup_singleton_Some in H1 as [? _]. lia.
Qed.

Lemma junctionsOfPair_good element1 element2 junctions :
  element1 ∈ els -> good junctions ->
  good (junctionsOfPair element1 element2 junctions).
Proof.
  intros He Hg. unfold junctionsOfPair.
  apply foldl_invariant; [done|]. intros js p1 Hp1 Hjs.
  apply foldl_invariant; [done|]. intros js' p2 _ Hjs'.
  apply addJunction_good; [|done]. by exists element1.
Qed.

Lemma findJunctionsFrom_good elements : forall junctions,
  (forall e, e ∈ elements -> e ∈ els) -> good junctions ->
  good (findJunctionsFrom elements junctions).
Proof.
  induction elements as [|element1 rest IH]; intros junctions Hsub Hg; simpl;
    [done|].
  apply IH; [intros e He; apply Hsub; by right|].
  apply foldl_invariant; [done|]. intros js element2 _ Hjs.
  apply junctionsOfPair_good; [|done]. apply Hsub. left.
Qed.

End Junctions.

(** X7: every junction that [findJunctions] reports is a corner point
    of an element of the drawing, and no junction is closer than the
    tolerance to one reported before it; a drawing with fewer than two
    elements has no junction. *)
Theorem junctions_are_separate_corners (els : list DrawingElement) :
  Forall (fun q => exists e, e ∈ els /\ q ∈ points e) (findJunctions els)
  /\ junctionsApart (findJunctions els)
  /\ (length els <= 1 -> findJunctions els = []).
Proof.
  destruct (findJunctionsFrom_good els els []) as [H1 H2].
  - done.
  - split; [constructor|]. intros i j q1 q2 _ H. by rewrite lookup_nil in H.
  - split; [exact H1|]. split; [exact H2|].
    intros Hlen. destruct els as [|e [|e' rest]]; [done|done|simpl in Hlen; lia].
Qed.

(** Three regions around the corner (5, 5): one junction is kept. *)
Example junctions_of_three_regions :
  findJunctions [sampleRegion 0 0 5 5; sampleRegion 5 5 10 10;
                 sampleRegion 5.25 5 10 0]
  = [mkPoint 5 5].
Proof. vm_compute. reflexivity. Qed.

(** X8: when the drawing has no junction, as with a single region,
    the refinement adds nothing: the nodes of the mesh are the nodes of
    the structured grid, one for each column of each row. *)
Theorem mesh_without_junction_is_the_grid
  des meshSize adaptiveFactor interiorTemp exteriorTemp mesh :
  findJunctions des = [] ->
  generateMesh des meshSize adaptiveFactor interiorTemp exteriorTemp = Returns mesh ->
  gridStage des meshSize interiorTemp exteriorTemp = Returns (meshNodes mesh)
  /\ length (meshNodes mesh) = gridColumns des meshSize * gridRows des meshSize.
Proof.
  intros Hj H. apply generateMesh_stages in H as (grid & Hgrid & Hns & _).
  unfold refineStage in Hns. rewrite Hj in Hns. injection Hns as <-.
  split; [done|]. exact (gridStage_length _ _ _ _ _ Hgrid).
Qed.

Lemma mesh_without_junction_is_the_grid_witness :
  match generateMesh oneRegion 5 0.3 20 0 with
  | Returns mesh =>
      gridStage oneRegion 5 20 0 = Returns (meshNodes mesh)
      /\ length (meshNodes mesh) = gridColumns oneRegion 5 * gridRows oneRegion 5
  | Fails _ => False
  end.
Proof.
  destruct (generateMesh oneRegion 5 0.3 20 0) as [mesh|f] eqn:E.
  - exact (mesh_without_junction_is_the_grid oneRegion 5 0.3 20 0 mesh eq_refl E).
  - vm_compute in E. discriminate E.
Defined.
(** ** Loops over the positions of an array *)

Lemma indexed_fold_from {A St} (f : St -> nat * A -> St) (P : St -> Prop) (l : list A) :
  forall k s,
    (forall j b s', l !! j = Some b -> P s' -> P (f s' (k + j, b))) ->
    P s -> P (foldl f s (zip (seq k (length l)) l)).
Proof.
  induction l as [|a l IH]; intros k s Hstep Hs; [done|].
  rewrite foldl_indexed_cons. apply IH.
  - intros j b s' Hj Hs'. replace (S k + j) with (k + S j) by lia.
    by apply Hstep.
  - pose proof (Hstep 0 a s eq_refl Hs) as H0.
    by rewrite Nat.add_0_r in H0.
Qed.

(** An invariant of a loop [for (i = 0; i < l.length; i++)] whose body
    reads [l[i]]. *)
Lemma indexed_fold_invariant {A St} (f : St -> nat * A -> St) (P : St -> Prop)
  (l : list A) (s : St) :
  (forall k b s', l !! k = Some b -> P s' -> P (f s' (k, b))) ->
  P s -> P (foldl f s (indexed l)).
Proof. intros Hstep Hs. unfold indexed. by apply indexed_fold_from. Qed.

(** A property that the step at position [i] brings about and the
    steps at the other positions keep. *)
Lemma indexed_fold_establish {A St} (f : St -> nat * A -> St) (P Q : St -> Prop)
  (l : list A) (i : nat) (a : A) (s : St) :
  (forall k b s', l !! k = Some b -> P s' -> P (f s' (k, b))) ->
  (forall s', P s' -> Q (f s' (i, a))) ->
  (forall k b s', k <> i -> P s' -> Q s' -> Q (f s' (k, b))) ->
  l !! i = Some a -> P s -> Q (foldl f s (indexed l)).
Proof.
  intros HP Hat Hkeep Hi Hs. unfold indexed.
  enough (H : forall l' k s',
    k <= i -> l' !! (i - k) = Some a ->
    (forall j b s'', l' !! j = Some b -> P s'' -> P (f s'' (k + j, b))) ->
    P s' -> Q (foldl f s' (zip (seq k (length l')) l'))).
  { apply (H l 0 s); [lia|by rewrite Nat.sub_0_r|done|done]. }
  clear Hi Hs HP s. induction l' as [|b l' IH]; intros k s' Hk Hl HP Hs'; [done|].
  rewrite foldl_indexed_cons.
  assert (Hfirst : P (f s' (k, b))).
  { pose proof (HP 0 b s' eq_refl Hs') as H0. by rewrite Nat.add_0_r in H0. }
  assert (HP' : forall j c s'', l' !! j = Some c -> P s'' ->
                                P (f s'' (S k + j, c))).
  { intros j c s'' Hj Hs''. replace (S k + j) with (k + S j) by lia.
    by apply HP. }
  destruct (decide (i = k)) as [->|Hne].
  - rewrite Nat.sub_diag in Hl. injection Hl as ->.
    apply (indexed_fold_from f (fun t => P t /\ Q t)); [|split; auto].
    intros j c s'' Hj [Hp Hq]. split; [by apply HP'|].
    apply Hkeep; [lia|done|done].
  - apply IH; [lia| |done|done].
    replace (i - k) with (S (i - S k)) in Hl by lia. done.
Qed.

(** ** Fixed nodes and runs without a sweep *)

Lemma setTemperature_same node : setTemperature node (temperature node) = node.
Proof. by destruct node. Qed.

Lemma sweep_keeps_fixed K F ns T i node t :
  ns !! i = Some node -> fixed node = true -> T !! i = Some t ->
  (sweep K F ns T).2 !! i = Some t.
Proof.
  intros Hnode Hfixed HT. unfold sweep.
  apply (indexed_fold_invariant _ (fun eT : float * list float => eT.2 !! i = Some t));
    [|done].
  intros k b [e T'] Hk HT'. simpl in HT'. unfold updateNode.
  destruct (negb (fixed b)) eqn:Hb; [|done]. simpl.
  destruct (decide (k = i)) as [->|Hne].
  - rewrite Hnode in Hk. injection Hk as <-. by rewrite Hfixed in Hb.
  - by rewrite list_lookup_insert_ne.
Qed.

Lemma iterate_keeps_fixed K F ns tolerance i node t left : forall error T,
  ns !! i = Some node -> fixed node = true -> T !! i = Some t ->
  (iterate K F ns tolerance left error T).2 !! i = Some t.
Proof.
  induction left as [|left IH]; intros error T Hnode Hfixed HT; simpl; [done|].
  destruct (tolerance <? error)%float; [|done].
  pose proof (sweep_keeps_fixed K F ns T i node t Hnode Hfixed HT) as H.
  destruct (sweep K F ns T) as [e' T']. by apply IH.
Qed.

(** X9: a fixed node comes out of [solveHeatTransfer] as it went in:
    its prescribed temperature, like all its other fields, is the same
    in the result. *)
Theorem fixed_nodes_keep_their_temperature
  mesh maxIterations tolerance r i node :
  solveHeatTransfer mesh maxIterations tolerance = Returns r ->
  meshNodes mesh !! i = Some node -> fixed node = true ->
  resNodes r !! i = Some node.
Proof.
  intros H Hnode Hfixed.
  apply solveHeatTransferWith_returns in H
    as (K & F & error & T & _ & HT & -> & _).
  rewrite (storeTemperatures_lookup _ _ _ _ Hnode). f_equal.
  assert (Hi : T !! i = Some (temperature node)).
  { replace T with (gaussSeidel K F (meshNodes mesh) maxIterations tolerance).2
      by by rewrite HT.
    unfold gaussSeidel. eapply iterate_keeps_fixed; [done|done|].
    by rewrite list_lookup_fmap, Hnode. }
  unfold readNum. rewrite Hi. simpl. apply setTemperature_same.
Qed.

Lemma fixed_nodes_keep_their_temperature_witness :
  match solveHeatTransfer twoSurfaceMesh 1000 0.000001 with
  | Returns r => resNodes r !! 1 = Some (mkNode 1 1 0 20 true true (Some interior))
  | Fails _ => False
  end.
Proof.
  destruct (solveHeatTransfer twoSurfaceMesh 1000 0.000001) as [r|f] eqn:E.
  - exact (fixed_nodes_keep_their_temperature twoSurfaceMesh 1000 0.000001 r 1
             (mkNode 1 1 0 20 true true (Some interior)) E eq_refl eq_refl).
  - vm_compute in E. discriminate E.
Defined.

Lemma storeTemperatures_same ns : storeTemperatures ns (map temperature ns) = ns.
Proof.
  unfold storeTemperatures. induction ns as [|node ns IH]; [done|].
  simpl. f_equal; [apply setTemperature_same|]. exact IH.
Qed.

(** X10: without a sweep the solver changes no temperature.  No sweep
    runs when [maxIterations] is 0, and none when adding 1 to the
    tolerance does not give a larger number (a tolerance from 2^53 on,
    [Infinity] or [NaN]): the nodes of the result are the nodes of the
    mesh. *)
Theorem no_sweep_changes_nothing mesh maxIterations tolerance r :
  maxIterations = 0 \/ (tolerance <? tolerance + 1)%float = false ->
  solveHeatTransfer mesh maxIterations tolerance = Returns r ->
  resNodes r = meshNodes mesh
  /\ minTemperature r = Js.minOf (map temperature (meshNodes mesh))
  /\ maxTemperature r = Js.maxOf (map temperature (meshNodes mesh)).
Proof.
  intros Hno H.
  apply solveHeatTransferWith_returns in H
    as (K & F & error & T & _ & HT & -> & _ & -> & -> & _).
  assert (ET : T = map temperature (meshNodes mesh)).
  { unfold gaussSeidel in HT. destruct Hno as [-> | Htol].
    - simpl in HT. by injection HT as _ <-.
    - destruct maxIterations as [|m]; simpl in HT.
      + by injection HT as _ <-.
      + rewrite Htol in HT. by injection HT as _ <-. }
  rewrite ET. split; [apply storeTemperatures_same|done].
Qed.

Lemma no_sweep_changes_nothing_witness :
  match solveHeatTransfer convectiveMesh 1000 1e300 with
  | Returns r =>
      resNodes r = meshNodes convectiveMesh
      /\ minTemperature r = Js.minOf (map temperature (meshNodes convectiveMesh))
      /\ maxTemperature r = Js.maxOf (map temperature (meshNodes convectiveMesh))
  | Fails _ => False
  end.
Proof.
  destruct (solveHeatTransfer convectiveMesh 1000 1e300) as [r|f] eqn:E.
  - refine (no_sweep_changes_nothing convectiveMesh 1000 1e300 r _ E).
    right. reflexivity.
  - vm_compute in E. discriminate E.
Defined.

(** ** When [solveHeatTransfer] throws *)




(** An element that names node 7 of a mesh with one node. *)
Example solve_out_of_range :
  solveHeatTransfer
    (mkMesh [mkNode 0 0 0 0 false false None] [mkElement 0 (0, 0, 7) sampleMaterial])
    1000 0.000001
  = Fails TypeError.
Proof. vm_compute. reflexivity. Qed.

(** ** The shape of the result *)

Lemma mapM_length {A B} (f : A -> Outcome B) (l : list A) (bs : list B) :
  mapM f l = Returns bs -> length bs = length l.
Proof.
  revert bs. induction l as [|a l IH]; intros bs; simpl.
  - by intros [= <-].
  - intros H. apply bind_returns in H as (b & _ & H).
    apply bind_returns in H as (bs' & Hbs' & [= <-]). simpl. f_equal. by apply IH.
Qed.

(** X12: a result holds as many nodes as the mesh, nine isotherms,
    the [k]-th at [min + k * (max - min) / 10] for the extrema the
    result itself reports, and one flux value for each element. *)
Theorem result_shape mesh maxIterations tolerance r :
  solveHeatTransfer mesh maxIterations tolerance = Returns r ->
  length (resNodes r) = length (meshNodes mesh)
  /\ length (fluxValues r) = length (meshElements mesh)
  /\ length (isotherms r) = 9
  /\ forall k, k < 9 ->
       isotherms r !! k
       = Some (minTemperature r
               + Js.ofNat (k + 1) * (maxTemperature r - minTemperature r) / 10)%float.
Proof.
  unfold solveHeatTransfer, solveHeatTransferWith. intros H.
  apply bind_returns in H as ([K F] & _ & H).
  destruct (gaussSeidel K F (meshNodes mesh) maxIterations tolerance) as [error T].
  apply bind_returns in H as (psi & _ & H).
  apply bind_returns in H as (fl & Hfl & [= <-]). simpl.
  split; [apply storeTemperatures_length|].
  split; [by apply mapM_length in Hfl|].
  split; [done|].
  intros k Hk. do 9 (destruct k as [|k]; [reflexivity|]). lia.
Qed.

Lemma result_shape_witness :
  match solveHeatTransfer convectiveMesh 1000 0.000001 with
  | Returns r =>
      length (resNodes r) = length (meshNodes convectiveMesh)
      /\ length (fluxValues r) = length (meshElements convectiveMesh)
      /\ length (isotherms r) = 9
      /\ forall k, k < 9 ->
           isotherms r !! k
           = Some (minTemperature r
                   + Js.ofNat (k + 1) * (maxTemperature r - minTemperature r) / 10)%float
  | Fails _ => False
  end.
Proof.
  destruct (solveHeatTransfer convectiveMesh 1000 0.000001) as [r|f] eqn:E.
  - exact (result_shape _ _ _ _ E).
  - vm_compute in E. discriminate E.
Defined.
(** ** The sparse matrix *)

Lemma addToSparseMatrix_lookup_ne K i j v key :
  key <> (i, j) -> addToSparseMatrix K i j v !! key = K !! key.
Proof. intros H. unfold addToSparseMatrix. by rewrite lookup_insert_ne. Qed.

Lemma addToSparseMatrix_lookup_missing K i j v :
  K !! (i, j) = None -> addToSparseMatrix K i j v !! (i, j) = Some (0 + v)%float.
Proof. intros H. unfold addToSparseMatrix. by rewrite H, lookup_insert_eq. Qed.

Section ClearRowAndColumn.

Variable i : nat.

Let clearStep (K : SparseMatrix) (j : nat) : SparseMatrix :=
  deleteFromSparseMatrix (deleteFromSparseMatrix K i j) j i.

Lemma clear_keeps_missing (l : list nat) key : forall K,
  K !! key = None -> foldl clearStep K l !! key = None.
Proof.
  induction l as [|j l IH]; intros K H; simpl; [done|].
  apply IH. unfold clearStep, deleteFromSparseMatrix.
  apply lookup_delete_None. right. apply lookup_delete_None. by right.
Qed.

Lemma clear_other (l : list nat) a b : forall K,
  a <> i -> b <> i -> foldl clearStep K l !! (a, b) = K !! (a, b).
Proof.
  induction l as [|j l IH]; intros K Ha Hb; simpl; [done|].
  rewrite IH by done. unfold clearStep, deleteFromSparseMatrix.
  rewrite !lookup_delete_ne; [done|congruence|congruence].
Qed.

Lemma clear_row (l : list nat) j : forall K,
  j ∈ l ->
  foldl clearStep K l !! (i, j) = None /\ foldl clearStep K l !! (j, i) = None.
Proof.
  induction l as [|j0 l IH]; intros K Hj; [by apply elem_of_nil in Hj|].
  simpl. apply elem_of_cons in Hj as [->|Hj]; [|by apply IH].
  split; apply clear_keeps_missing; unfold clearStep, deleteFromSparseMatrix.
  - apply lookup_delete_None. right. apply lookup_delete_None. by left.
  - apply lookup_delete_None. by left.
Qed.

End ClearRowAndColumn.

Lemma clearRowAndColumn_row n i j K :
  j < n ->
  clearRowAndColumn n i K !! (i, j) = None
  /\ clearRowAndColumn n i K !! (j, i) = None.
Proof. intros Hj. apply clear_row. apply elem_of_seq. lia. Qed.

Lemma clearRowAndColumn_other n i a b K :
  a <> i -> b <> i -> clearRowAndColumn n i K !! (a, b) = K !! (a, b).
Proof. apply clear_other. Qed.

Lemma clearRowAndColumn_keeps_missing n i key K :
  K !! key = None -> clearRowAndColumn n i K !! key = None.
Proof. apply clear_keeps_missing. Qed.

(** The boundary condition of another node keeps an identity row. *)
Lemma applyBoundary_keeps_identityRow h1 h2 n i k node K F :
  k <> i -> identityRow n i K ->
  identityRow n i (applyBoundary h1 h2 n (K, F) (k, node)).1.
Proof.
  intros Hk [Hd Hrow]. unfold applyBoundary.
  assert (Hadd : forall K' v, identityRow n i K' ->
                              identityRow n i (addToSparseMatrix K' k k v)).
  { intros K' v [Hd' Hrow']. split.
    - rewrite addToSparseMatrix_lookup_ne; [done|congruence].
    - intros j Hj Hji. rewrite !addToSparseMatrix_lookup_ne; [|congruence..].
      by apply Hrow'. }
  destruct (fixed node); simpl.
  - apply Hadd. split.
    + by rewrite clearRowAndColumn_other.
    + intros j Hj Hji. destruct (Hrow j Hj Hji) as [H1 H2].
      split; by apply clearRowAndColumn_keeps_missing.
  - destruct (isBoundary node); simpl; [|done].
    destruct (isInterior _); simpl; [by apply Hadd|].
    destruct (isExterior _); simpl; [by apply Hadd|done].
Qed.

(** X13: after the boundary conditions the equation of a fixed node
    reads [T = prescribed temperature]: its diagonal entry is 1, the
    rest of its row is gone, and so is the rest of its column, so that
    no free node's equation refers to a fixed node; its load entry is
    the temperature of the node. *)
Theorem dirichlet_rows_are_identity mesh K F i node :
  buildSystem INTERIOR_HEAT_TRANSFER_COEFFICIENT EXTERIOR_HEAT_TRANSFER_COEFFICIENT
    mesh = Returns (K, F) ->
  meshNodes mesh !! i = Some node -> fixed node = true ->
  identityRow (length (meshNodes mesh)) i K
  /\ readNum F i = temperature node.
Proof.
  unfold buildSystem. intros H Hnode Hfixed.
  apply bind_returns in H as (K0 & _ & [= H]).
  set (n := length (meshNodes mesh)) in *.
  assert (Hi : i < n) by by eapply lookup_lt_Some.
  pose proof (indexed_fold_establish
    (applyBoundary INTERIOR_HEAT_TRANSFER_COEFFICIENT
       EXTERIOR_HEAT_TRANSFER_COEFFICIENT n)
    (fun KF => length KF.2 = n)
    (fun KF => identityRow n i KF.1 /\ readNum KF.2 i = temperature node)
    (meshNodes mesh) i node (K0, replicate n 0%float)) as Hfold.
  unfold applyBoundaryConditions in H. fold n in H. rewrite H in Hfold.
  apply Hfold; clear Hfold H; try done.
  - intros k b KF _ HF. by rewrite applyBoundary_load_length.
  - intros [K1 F1] HF. simpl in HF. unfold applyBoundary. rewrite Hfixed. simpl.
    split; [split|].
    + rewrite addToSparseMatrix_lookup_missing; [done|].
      by apply clearRowAndColumn_row.
    + intros j Hj Hji. rewrite !addToSparseMatrix_lookup_ne; [|congruence..].
      by apply clearRowAndColumn_row.
    + apply readNum_insert_eq. lia.
  - intros k b KF Hk HF [Hrow Hload]. split.
    + destruct KF as [K1 F1]. by apply applyBoundary_keeps_identityRow.
    + by rewrite applyBoundary_load_other.
  - simpl. apply length_replicate.
Qed.

Lemma dirichlet_rows_are_identity_witness :
  match buildSystem INTERIOR_HEAT_TRANSFER_COEFFICIENT
          EXTERIOR_HEAT_TRANSFER_COEFFICIENT twoSurfaceMesh with
  | Returns (K, F) =>
      identityRow (length (meshNodes twoSurfaceMesh)) 1 K
      /\ readNum F 1 = 20%float
  | Fails _ => False
  end.
Proof.
  destruct (buildSystem _ _ twoSurfaceMesh) as [[K F]|f] eqn:E.
  - exact (dirichlet_rows_are_identity twoSurfaceMesh K F 1
             (mkNode 1 1 0 20 true true (Some interior)) E eq_refl eq_refl).
  - vm_compute in E. discriminate E.
Defined.

(** The entries one element gives to the matrix. *)
Lemma assembleElement_entries ns element K K' a b :
  assembleElement ns element K = Returns K' ->
  is_Some (K' !! (a, b))
  <-> is_Some (K !! (a, b))
      \/ (includesNode element a = true /\ includesNode element b = true).
Proof.
  unfold assembleElement, includesNode.
  destruct (nodes element) as [[i j] k] eqn:E. intros H.
  apply bind_returns in H as ([[ni nj] nk] & _ & [= <-]).
  unfold addToSparseMatrix.
  rewrite <- !elem_of_dom, !dom_insert_L, !elem_of_union, !elem_of_singleton.
  rewrite !orb_true_iff, !Nat.eqb_eq.
  split.
  - intros H. repeat destruct H as [H|H]; try (injection H as -> ->); auto 10.
  - intros [H|[Ha Hb]]; [auto 10|].
    destruct Ha as [[<-|<-]|<-], Hb as [[<-|<-]|<-]; auto 10.
Qed.

(** X14: after assembly the matrix has an entry at [(a, b)] exactly
    when some element has both [a] and [b] among its corners; the
    pattern of entries is symmetric. *)
Theorem assembled_entries_join_corners ns elements K :
  assemble ns elements = Returns K ->
  (forall a b,
     is_Some (K !! (a, b))
     <-> exists element, element ∈ elements
                         /\ includesNode element a = true
                         /\ includesNode element b = true)
  /\ (forall a b, is_Some (K !! (a, b)) -> is_Some (K !! (b, a))).
Proof.
  intros H.
  assert (Hentries : forall a b,
     is_Some (K !! (a, b))
     <-> exists element, element ∈ elements
                         /\ includesNode element a = true
                         /\ includesNode element b = true).
  { intros a b. unfold assemble in H.
    enough (Hgen : forall els K0 K1,
      forEach els (assembleElement ns) K0 = Returns K1 ->
      is_Some (K1 !! (a, b))
      <-> is_Some (K0 !! (a, b))
          \/ exists element, element ∈ els /\ includesNode element a = true
                             /\ includesNode element b = true).
    { rewrite (Hgen _ _ _ H), lookup_empty. split.
      - intros [[v Hv]|He]; [discriminate|done].
      - by right. }
    induction els as [|element els IH]; intros K0 K1; simpl.
    - intros [= <-]. split; [by left|].
      intros [H0|(e & He & _)]; [done|by apply elem_of_nil in He].
    - intros H1. apply bind_returns in H1 as (K2 & H2 & H1).
      rewrite (IH _ _ H1), (assembleElement_entries _ _ _ _ a b H2). split.
      + intros [[H0|Hc]|(e & He & Hc)]; [by left| |].
        * right. exists element. split; [left|done].
        * right. exists e. split; [by right|done].
      + intros [H0|(e & He & Hc)]; [by left; left|].
        apply elem_of_cons in He as [->|He]; [by left; right|].
        right. by exists e. }
  split; [exact Hentries|].
  intros a b Hab. apply Hentries in Hab as (e & He & Ha & Hb).
  apply Hentries. by exists e.
Qed.

Lemma assembled_entries_join_corners_witness :
  match assemble (meshNodes convectiveMesh) (meshElements convectiveMesh) with
  | Returns K =>
      (forall a b,
         is_Some (K !! (a, b))
         <-> exists element, element ∈ meshElements convectiveMesh
                             /\ includesNode element a = true
                             /\ includesNode element b = true)
      /\ (forall a b, is_Some (K !! (a, b)) -> is_Some (K !! (b, a)))
  | Fails _ => False
  end.
Proof.
  destruct (assemble _ _) as [K|f] eqn:E.
  - exact (assembled_entries_join_corners _ _ _ E).
  - vm_compute in E. discriminate E.
Defined.
(** ** The simulation run *)



(** X16: in the result of a simulation every node of type [interior]
    holds the interior temperature and every node of type [exterior]
    the exterior temperature, whatever the number of sweeps. *)
Theorem simulated_surfaces_hold_prescribed_temperatures
  des meshSize adaptiveFactor tempInt tempExt maxIterations r :
  runSimulation des meshSize adaptiveFactor tempInt tempExt maxIterations
  = Returns r ->
  Forall (surfaceAtPrescribed tempInt tempExt) (resNodes r).
Proof.
  unfold runSimulation. intros H.
  apply bind_returns in H as (mesh & Hmesh & H).
  assert (Hclass : Forall (classified tempInt tempExt) (meshNodes mesh)).
  { apply generateMesh_stages in Hmesh as (grid & Hgrid & Hns & _).
    apply (gridStage_all _ _ _ _ (classified tempInt tempExt)) in Hgrid;
      [|apply gridNode_classified].
    apply (refineStage_pushed _ _ _ (classified tempInt tempExt)) in Hns
      as (added & -> & Hadd); [|intros; by repeat split].
    by apply Forall_app. }
  apply solveHeatTransferWith_returns in H
    as (K & F & error & T & _ & HT & -> & _).
  apply Forall_lookup. intros i node' Hi.
  unfold storeTemperatures in Hi. rewrite list_lookup_imap in Hi.
  destruct (meshNodes mesh !! i) as [node|] eqn:Hnode; [|discriminate].
  injection Hi as <-.
  pose proof (proj1 (Forall_lookup _ _) Hclass i node Hnode) as Hc.
  unfold classified in Hc. unfold surfaceAtPrescribed. simpl.
  assert (Hkeep : fixed node = true -> readNum T i = temperature node).
  { intros Hfixed.
    replace T with (gaussSeidel K F (meshNodes mesh) maxIterations
                      defaultTolerance).2 by by rewrite HT.
    unfold gaussSeidel, readNum.
    erewrite iterate_keeps_fixed; [done|done|done|].
    by rewrite list_lookup_fmap, Hnode. }
  destruct (boundaryType node) as [[| |]|]; [| |done|done];
    destruct Hc as (Hfixed & _ & <-); by apply Hkeep.
Qed.

Lemma simulated_surfaces_hold_prescribed_temperatures_witness :
  match runSimulation oneRegion 5 0.3 21 (-5) 2 with
  | Returns r => Forall (surfaceAtPrescribed 21 (-5)) (resNodes r)
  | Fails _ => False
  end.
Proof.
  destruct (runSimulation oneRegion 5 0.3 21 (-5) 2) as [r|f] eqn:E.
  - exact (simulated_surfaces_hold_prescribed_temperatures
             oneRegion 5 0.3 21 (-5) 2 r E).
  - vm_compute in E. discriminate E.
Defined.

(** ** Meshes without an interior surface *)

Lemma forEach_skip {A S} (body : A -> S -> Outcome S) (l : list A) (s : S) :
  (forall a s', a ∈ l -> body a s' = Returns s') ->
  forEach l body s = Returns s.
Proof.
  induction l as [|a l IH]; intros Hbody; simpl; [done|].
  rewrite Hbody by left. simpl. apply IH. intros a' s' Ha'. apply Hbody. by right.
Qed.

Lemma insertByX_elem a b sorted : b ∈ insertByX a sorted -> b = a \/ b ∈ sorted.
Proof.
  induction sorted as [|c rest IH]; simpl.
  - intros H. apply list_elem_of_singleton in H. by left.
  - destruct (_ <? _)%float.
    + intros H. apply elem_of_cons in H as [->|H]; [by left|by right].
    + intros H. apply elem_of_cons in H as [->|H]; [right; left|].
      destruct (IH H) as [->|Hb]; [by left|right; by right].
Qed.

Lemma sortByX_elem l b : b ∈ sortByX l -> b ∈ l.
Proof.
  unfold sortByX.
  enough (H : forall acc, b ∈ foldl (fun sorted a => insertByX a sorted) acc l ->
                          b ∈ acc \/ b ∈ l).
  { intros Hb. destruct (H [] Hb) as [Hn|Hl]; [by apply elem_of_nil in Hn|done]. }
  induction l as [|a l IH]; intros acc; simpl; [by left|].
  intros Hb. destruct (IH _ Hb) as [Hacc|Hl]; [|right; by right].
  destruct (insertByX_elem _ _ _ Hacc) as [->|Hacc']; [right; left|by left].
Qed.

Lemma addToWalls_all (P : MeshNode -> Prop) walls node :
  P node -> Forall (fun w => Forall P (wallNodes w)) walls ->
  Forall (fun w => Forall P (wallNodes w)) (addToWalls walls node).
Proof.
  intros Hnode. induction walls as [|w rest IH]; intros Hw; simpl.
  - constructor; [|constructor]. simpl. by constructor.
  - apply Forall_cons in Hw as [Hw Hrest].
    destruct (_ <? _)%float.
    + constructor; [|done]. simpl. apply Forall_app. split; [done|by constructor].
    + constructor; [done|by apply IH].
Qed.

(** The walls hold boundary nodes of the list only. *)
Lemma horizontalWalls_all (P : MeshNode -> Prop) ns :
  Forall (fun node => isBoundary node = true -> P node) ns ->
  Forall (fun w => Forall P (wallNodes w)) (horizontalWalls ns).
Proof.
  intros H. unfold horizontalWalls.
  apply (foldl_invariant (fun walls => Forall (fun w => Forall P (wallNodes w)) walls));
    [constructor|].
  intros walls node Hin Hw.
  destruct (isBoundary node) eqn:Hb; [|done].
  apply addToWalls_all; [|done].
  rewrite Forall_forall in H. by apply H.
Qed.

Lemma calculatePsiValue_no_interior_surface mesh minTemp maxTemp :
  Forall (fun node => isInteriorSurface node = false) (meshNodes mesh) ->
  calculatePsiValue mesh minTemp maxTemp = Returns 0%float.
Proof.
  intros H. unfold calculatePsiValue.
  assert (Htotal : estimateTotalHeatFlow mesh = Returns 0%float).
  { unfold estimateTotalHeatFlow. apply forEach_skip. intros node s Hin.
    rewrite Forall_forall in H. by rewrite (H _ Hin). }
  assert (HoneD : estimateOneDimensionalHeatFlow mesh minTemp maxTemp
                  = Returns 0%float).
  { unfold estimateOneDimensionalHeatFlow. apply forEach_skip.
    intros w s Hw.
    assert (Hpre : Forall (fun node => isBoundary node = true ->
                                       isInterior (boundaryType node) = false)
                          (meshNodes mesh)).
    { apply Forall_forall. intros node Hin Hb.
      rewrite Forall_forall in H. specialize (H _ Hin).
      unfold isInteriorSurface in H. by rewrite Hb in H. }
    pose proof (horizontalWalls_all _ _ Hpre) as Hwalls.
    rewrite Forall_forall in Hwalls. specialize (Hwalls w Hw). simpl in Hwalls.
    unfold wallFlow. cbv zeta.
    destruct (filter (fun node => isInterior (boundaryType node) = true)
                     (sortByX (wallNodes w))) as [|node rest] eqn:E.
    { simpl. by rewrite andb_false_r. }
    assert (Hin : node ∈ filter (fun node => isInterior (boundaryType node) = true)
                                (sortByX (wallNodes w))) by (rewrite E; left).
    apply list_elem_of_filter in Hin as [Hint Hin].
    apply sortByX_elem in Hin. rewrite Forall_forall in Hwalls.
    rewrite (Hwalls _ Hin) in Hint. discriminate Hint. }
  rewrite Htotal, HoneD. reflexivity.
Qed.

(** X17: for a mesh without a node on the interior surface the result
    reports a psi value of 0: neither heat-flow estimate visits a node
    or a wall. *)
Theorem no_interior_surface_gives_zero_psi mesh maxIterations tolerance r :
  solveHeatTransfer mesh maxIterations tolerance = Returns r ->
  Forall (fun node => isInteriorSurface node = false) (meshNodes mesh) ->
  psiValue r = 0%float.
Proof.
  unfold solveHeatTransfer, solveHeatTransferWith. intros H Hnone.
  apply bind_returns in H as ([K F] & _ & H).
  destruct (gaussSeidel _ _ _ _ _) as [error T].
  rewrite calculatePsiValue_no_interior_surface in H.
  - simpl in H. apply bind_returns in H as (fl & _ & [= <-]). done.
  - simpl. apply Forall_lookup. intros i node' Hi.
    unfold storeTemperatures in Hi. rewrite list_lookup_imap in Hi.
    destruct (meshNodes mesh !! i) as [node|] eqn:Hnode; [|discriminate].
    injection Hi as <-.
    by apply (proj1 (Forall_lookup _ _) Hnone i node).
Qed.

Lemma no_interior_surface_gives_zero_psi_witness :
  match solveHeatTransfer exteriorOnlyMesh 10 0.001 with
  | Returns r => psiValue r = 0%float
  | Fails _ => False
  end.
Proof.
  destruct (solveHeatTransfer exteriorOnlyMesh 10 0.001) as [r|f] eqn:E.
  - refine (no_interior_surface_gives_zero_psi exteriorOnlyMesh 10 0.001 r E _).
    by repeat constructor.
  - vm_compute in E. discriminate E.
Defined.
(** ** Validation of a drawing *)

Lemma missingOrNotPositive_positive v : missingOrNotPositive v = negb (positive v).
Proof.
  destruct v as [t|]; [|done]. unfold missingOrNotPositive, positive, Js.truthy.
  unfold is_nan, is_zero.
  rewrite !FloatAxioms.eqb_spec, FloatAxioms.leb_spec, FloatAxioms.ltb_spec.
  replace (Prim2SF 0) with (S754_zero false) by reflexivity.
  replace (Prim2SF zero) with (S754_zero false) by reflexivity.
  destruct (Prim2SF t) as [[|]|[|]| |[|] m e]; try reflexivity.
  - unfold SFeqb, SFleb, SFltb, SFcompare.
    rewrite Z.compare_refl, Pos.compare_refl. reflexivity.
  - unfold SFeqb, SFleb, SFltb, SFcompare.
    rewrite Z.compare_refl, Pos.compare_refl. reflexivity.
Qed.

Lemma errorCount_app errors more :
  errorCount (errors ++ more) = errorCount errors + errorCount more.
Proof. unfold errorCount. by rewrite List.filter_app, length_app. Qed.

(** The entries of an element are pushed onto the ones before. *)
Lemma validateElement_app elements errors element :
  validateElement elements errors element
  = errors ++ validateElement elements [] element.
Proof.
  unfold validateElement. cbv zeta.
  repeat match goal with |- context [if ?c then _ else _] => destruct c end;
    simpl; rewrite <- ?app_assoc; by rewrite ?app_nil_r.
Qed.

(** An element adds an entry of type [error] exactly when it is not
    well specified. *)
Lemma validateElement_errors elements element :
  (errorCount (validateElement elements [] element) =? 0) = wellSpecified element.
Proof.
  unfold validateElement, wellSpecified. cbv zeta.
  rewrite !missingOrNotPositive_positive.
  replace (length (points (drawing element)) <? 2)
    with (negb (2 <=? length (points (drawing element))))
    by (destruct (Nat.leb_spec 2 (length (points (drawing element))));
        destruct (Nat.ltb_spec (length (points (drawing element))) 2); simpl; lia).
  destruct (2 <=? length (points (drawing element)));
    destruct (isWallOrInsulation (elType (drawing element)));
    destruct (isSome (material (drawing element)));
    destruct (positive (thickness element));
    destruct (positive (propConductivity element));
    destruct (length (findConnections element elements) =? 0);
    reflexivity.
Qed.

Lemma validateDrawing_errors elements l : forall errors,
  (errorCount (foldl (validateElement elements) errors l) =? 0)
  = (errorCount errors =? 0) && forallb wellSpecified l.
Proof.
  induction l as [|element l IH]; intros errors; simpl.
  - by rewrite andb_true_r.
  - rewrite IH, validateElement_app, errorCount_app.
    rewrite <- (validateElement_errors elements element).
    destruct (errorCount errors), (errorCount (validateElement elements [] element));
      done.
Qed.

(** X18: [validateDrawing] accepts a drawing exactly when every element
    has at least two points and every wall or insulation has a
    material, a thickness above 0 and a conductivity above 0; an
    element without connection is reported but does not make the
    drawing invalid. *)
Theorem valid_iff_every_element_well_specified (elements : list EditorElement) :
  isValid (validateDrawing elements) = forallb wellSpecified elements.
Proof.
  unfold validateDrawing. cbv zeta. simpl.
  exact (validateDrawing_errors elements elements []).
Qed.

Lemma wellSpecified_hasCorners elements :
  forallb wellSpecified elements = true ->
  forallb hasCornersIfTagged (map drawing elements) = true.
Proof.
  induction elements as [|element elements IH]; simpl; [done|].
  intros H. apply andb_true_iff in H as [H1 H2]. apply andb_true_iff. split; [|by apply IH].
  unfold wellSpecified in H1. apply andb_true_iff in H1 as [H1 _].
  unfold hasCornersIfTagged. rewrite H1. apply orb_true_r.
Qed.

(** X19: the simulation of a drawing that [validateDrawing] accepts
    never throws a [TypeError]: it returns a result, or the mesh
    outgrows the bounds of its loops and arrays. *)
Theorem valid_drawing_simulation_never_reads_undefined
  elements meshSize adaptiveFactor tempInt tempExt maxIterations :
  isValid (validateDrawing elements) = true ->
  runSimulation (map drawing elements) meshSize adaptiveFactor tempInt tempExt
    maxIterations
  <> Fails TypeError.
Proof.
  intros Hvalid H.
  unfold validateDrawing in Hvalid. cbv zeta in Hvalid. simpl in Hvalid.
  change ((errorCount (foldl (validateElement elements) [] elements) =? 0) = true)
    in Hvalid.
  rewrite validateDrawing_errors in Hvalid. simpl in Hvalid.
  apply wellSpecified_hasCorners in Hvalid.
  unfold runSimulation in H.
  apply bind_fails in H as [H|(mesh & Hmesh & H)].
  - by apply (generateMesh_fails _ _ _ _ _ _ Hvalid) in H.
  - assert (Hrange : elementsInRange mesh).
    { apply generateMesh_stages in Hmesh as (grid & _ & _ & Hels).
      by apply triangulate_spec in Hels as (H1 & _ & _). }
    destruct (solveHeatTransferWith_in_range INTERIOR_HEAT_TRANSFER_COEFFICIENT
                EXTERIOR_HEAT_TRANSFER_COEFFICIENT mesh maxIterations
                defaultTolerance Hrange) as [r Hr].
    unfold solveHeatTransfer in H. congruence.
Qed.

Lemma valid_drawing_simulation_never_reads_undefined_witness :
  runSimulation (map drawing [mkEditorElement "r1" (sampleRegion 0 0 10 10) None None])
    5 0.3 20 0 3
  <> Fails TypeError.
Proof.
  apply (valid_drawing_simulation_never_reads_undefined
           [mkEditorElement "r1" (sampleRegion 0 0 10 10) None None] 5 0.3 20 0 3).
  reflexivity.
Defined.

(** ** Connections *)

Lemma elem_of_foldl_pushes {A B} (f : list B -> A -> list B) (Q : A -> Prop)
  (x : B) (l : list A) :
  (forall acc a, x ∈ f acc a <-> x ∈ acc \/ Q a) ->
  forall acc, x ∈ foldl f acc l <-> x ∈ acc \/ exists a, a ∈ l /\ Q a.
Proof.
  intros Hf. induction l as [|a l IH]; intros acc; simpl.
  - split; [by left|]. intros [H|(a & Ha & _)]; [done|by apply elem_of_nil in Ha].
  - rewrite IH, Hf. split.
    + intros [[H|H]|(a' & Ha' & H)]; [by left| |].
      * right. exists a. split; [left|done].
      * right. exists a'. split; [by right|done].
    + intros [H|(a' & Ha' & H)]; [by left; left|].
      apply elem_of_cons in Ha' as [->|Ha']; [by left; right|].
      right. by exists a'.
Qed.

(** X20: [findConnections] reports exactly the elements of the list
    that carry another id than the element and have a point within the
    tolerance of one of its points; the element itself, or a copy under
    its id, is never reported. *)
Theorem connections_are_the_touching_others element allElements other :
  other ∈ findConnections element allElements
  <-> other ∈ allElements
      /\ elementId other <> elementId element
      /\ touches element other.
Proof.
  unfold findConnections.
  rewrite (elem_of_foldl_pushes _
    (fun o => other = o /\ elementId o <> elementId element /\ touches element o)).
  - split.
    + intros [H|(o & Ho & <- & H)]; [by apply elem_of_nil in H|done].
    + intros (Hin & H). right. by exists other.
  - intros acc o. destruct (String.eqb_spec (elementId o) (elementId element)) as [E|E].
    { split; [by left|]. intros [H|(_ & H & _)]; done. }
    rewrite (elem_of_foldl_pushes _
      (fun p1 => exists p2, p2 ∈ points (drawing o)
         /\ other = o
         /\ (calculateDistance p1 p2 <=? connectionTolerance)%float = true)).
    + split.
      * intros [H|(p1 & Hp1 & p2 & Hp2 & -> & Hd)]; [by left|].
        right. split; [done|]. split; [done|]. by exists p1, p2.
      * intros [H|(-> & _ & p1 & p2 & Hp1 & Hp2 & Hd)]; [by left|].
        right. exists p1. split; [done|]. by exists p2.
    + intros cs p1.
      rewrite (elem_of_foldl_pushes _
        (fun p2 => other = o
           /\ (calculateDistance p1 p2 <=? connectionTolerance)%float = true));
        [done|].
      intros cs' p2. destruct (_ <=? _)%float.
      * rewrite elem_of_app, list_elem_of_singleton. split.
        -- intros [H|H]; [by left|by right].
        -- intros [H|[H _]]; [by left|by right].
      * split; [by left|]. intros [H|[_ H]]; done.
Qed.
(** ** The hit test and the material search *)

(** X21: on a drawing of regions as the editor draws them, rectangles
    with a material and two points, the material that the mesh
    generation finds at a point is the material of the element that the
    editor's hit test finds there, and none where the hit test finds no
    element. *)
Theorem material_at_point_is_hit_test (els : list DrawingElement) (point : Point) :
  forallb twoPointRegion els = true ->
  findMaterialAtPoint els point = Returns (findElementAtPoint point els ≫= material).
Proof.
  unfold findElementAtPoint.
  induction els as [|d els IH]; simpl; [done|].
  intros H. apply andb_true_iff in H as [Hd H]. specialize (IH H).
  unfold twoPointRegion in Hd.
  apply andb_true_iff in Hd as [Hd Hlen]. apply andb_true_iff in Hd as [Hrect Hmat].
  rewrite Hrect.
  destruct (material d) as [mat|] eqn:Emat; [|discriminate].
  destruct (points d) as [|p1 [|p2 [|p3 ps]]]; try discriminate.
  cbv zeta.
  destruct (_ && _ && _ && _); simpl; [by rewrite Emat|exact IH].
Qed.

Lemma material_at_point_is_hit_test_witness :
  findMaterialAtPoint twoRegions (mkPoint 7 6)
  = Returns (findElementAtPoint (mkPoint 7 6) twoRegions ≫= material).
Proof.
  apply (material_at_point_is_hit_test twoRegions (mkPoint 7 6)). reflexivity.
Defined.

(** ** Horizontal walls *)

Lemma addToWalls_nodes walls node :
  concat (map wallNodes (addToWalls walls node))
  ≡ₚ concat (map wallNodes walls) ++ [node].
Proof.
  induction walls as [|w rest IH]; simpl; [done|].
  destruct (_ <? _)%float; simpl.
  - rewrite <- !app_assoc. apply Permutation_app_head. apply Permutation_app_comm.
  - rewrite IH. by rewrite app_assoc.
Qed.

Lemma addToWalls_around walls node :
  Forall wallAround walls -> Forall wallAround (addToWalls walls node).
Proof.
  induction walls as [|w rest IH]; intros H; simpl.
  - constructor; [|constructor]. unfold wallAround. simpl. by split.
  - apply Forall_cons in H as [Hw Hrest].
    destruct (_ <? _)%float eqn:E.
    + constructor; [|done]. unfold wallAround in *. simpl.
      destruct (wallNodes w) as [|first later]; [done|]. simpl.
      destruct Hw as [Hy Hlater]. split; [done|].
      apply Forall_app. split; [done|]. by constructor.
    + constructor; [done|by apply IH].
Qed.

(** X22: the grouping of [estimateOneDimensionalHeatFlow] puts every
    boundary node of the mesh into exactly one wall and no other node
    into any; a wall is never empty, its height is the [y] of its first
    node, and every later node lies within 5 of that height. *)
Theorem walls_partition_the_boundary (ns : list MeshNode) :
  concat (map wallNodes (horizontalWalls ns))
  ≡ₚ filter (fun node => isBoundary node = true) ns
  /\ Forall wallAround (horizontalWalls ns).
Proof.
  unfold horizontalWalls.
  enough (H : forall walls,
    Forall wallAround walls ->
    let walls' :=
      foldl (fun walls node =>
               if isBoundary node then addToWalls walls node else walls) walls ns in
    concat (map wallNodes walls')
    ≡ₚ concat (map wallNodes walls) ++ filter (fun node => isBoundary node = true) ns
    /\ Forall wallAround walls').
  { apply (H []). constructor. }
  induction ns as [|node ns IH]; intros walls Hw; simpl.
  - by rewrite app_nil_r.
  - destruct (isBoundary node) eqn:Hb.
    + destruct (IH (addToWalls walls node) (addToWalls_around _ _ Hw)) as [IH1 IH2].
      split; [|done]. rewrite IH1, addToWalls_nodes.
      rewrite filter_cons_True by done. by rewrite <- app_assoc.
    + destruct (IH walls Hw) as [IH1 IH2]. split; [|done].
      rewrite IH1. rewrite filter_cons_False; [done|]. by rewrite Hb.
Qed.
(** ** Isotherm segments *)

Lemma SFcompare_antisym f1 f2 :
  SFcompare f2 f1 = option_map CompOpp (SFcompare f1 f2).
Proof.
  destruct f1 as [[|]|[|]| |[|] m1 e1], f2 as [[|]|[|]| |[|] m2 e2];
    try reflexivity; simpl;
    change (Pos.compare_cont Eq m2 m1) with (m2 ?= m1)%positive;
    change (Pos.compare_cont Eq m1 m2) with (m1 ?= m2)%positive;
    rewrite (Z.compare_antisym e1 e2);
    destruct (e1 ?= e2)%Z; simpl; try reflexivity;
    rewrite (Pos.compare_antisym m1 m2);
    destruct (m1 ?= m2)%positive; reflexivity.
Qed.

Lemma compared t v : Compared t v.
Proof.
  pose proof (SFcompare_antisym (Prim2SF t) (Prim2SF v)) as Hanti.
  destruct (SFcompare (Prim2SF t) (Prim2SF v)) as [[| |]|] eqn:E; simpl in Hanti;
    [apply comparedEqual|apply comparedBelow|apply comparedAbove|apply comparedNot];
    rewrite ?FloatAxioms.ltb_spec, ?FloatAxioms.eqb_spec, ?FloatAxioms.leb_spec;
    unfold SFltb, SFeqb, SFleb; by rewrite ?E, ?Hanti.
Qed.

Ltac compare_with t v :=
  let A := fresh in let B := fresh in let C := fresh in
  let D := fresh in let E := fresh in
  destruct (compared t v) as [A B C D E|A B C D E|A B C D E|A B C D E];
  rewrite ?A, ?B, ?C, ?D, ?E; clear A B C D E.

Ltac compare_corners p1 p2 p3 isotherm :=
  destruct p1 as [[x1 y1] t1], p2 as [[x2 y2] t2], p3 as [[x3 y3] t3];
  unfold findIsothermSegments, isothermIntersections, sideIntersection,
    below, above, atIsotherm, cornerTemperature;
  simpl;
  compare_with t1 isotherm; compare_with t2 isotherm; compare_with t3 isotherm;
  simpl.

(** X23: when no corner of the triangle is at the isotherm and every
    corner temperature is a number, [findIsothermSegments] returns one
    segment if the isotherm separates the corners, and none if all
    three lie on one side of it. *)
Theorem isotherm_off_the_corners (p1 p2 p3 : Corner) (isotherm : float) :
  forallb (fun c => below isotherm c || above isotherm c) [p1; p2; p3] = true ->
  length (findIsothermSegments p1 p2 p3 isotherm)
  = if forallb (below isotherm) [p1; p2; p3] || forallb (above isotherm) [p1; p2; p3]
    then 0 else 1.
Proof.
  compare_corners p1 p2 p3 isotherm; intros H; try discriminate H; reflexivity.
Qed.

Lemma isotherm_off_the_corners_witness :
  length (findIsothermSegments (0, 0, 10) (1, 0, 20) (0, 1, 30) 25)%float = 1.
Proof.
  apply (isotherm_off_the_corners (0, 0, 10)%float (1, 0, 20)%float
           (0, 1, 30)%float 25%float).
  reflexivity.
Defined.

(** X24: an isotherm that passes through a corner of the triangle and
    separates the other two corners is not drawn: all three sides count
    as crossed, and a segment is returned for two crossings only. *)
Theorem isotherm_through_a_corner_is_not_drawn (p1 p2 p3 : Corner) (isotherm : float) :
  existsb (atIsotherm isotherm) [p1; p2; p3] = true ->
  existsb (below isotherm) [p1; p2; p3] = true ->
  existsb (above isotherm) [p1; p2; p3] = true ->
  findIsothermSegments p1 p2 p3 isotherm = [].
Proof.
  compare_corners p1 p2 p3 isotherm; intros H1 H2 H3;
    try discriminate H1; try discriminate H2; try discriminate H3; reflexivity.
Qed.

Lemma isotherm_through_a_corner_is_not_drawn_witness :
  findIsothermSegments (0, 0, 10)%float (1, 0, 20)%float (0, 1, 30)%float 20%float
  = [].
Proof.
  apply (isotherm_through_a_corner_is_not_drawn (0, 0, 10)%float (1, 0, 20)%float
           (0, 1, 30)%float 20%float); reflexivity.
Defined.
(** ** Symmetry of the conductance matrix *)

Lemma SFmul_comm prec emax v w : SFmul prec emax v w = SFmul prec emax w v.
Proof.
  destruct v as [[|]|[|]| |[|] m1 e1], w as [[|]|[|]| |[|] m2 e2];
    try reflexivity; simpl; by rewrite (Pos.mul_comm m1 m2), (Z.add_comm e1 e2).
Qed.

Lemma float_mul_comm (v w : float) : (v * w = w * v)%float.
Proof.
  apply Prim2SF_inj. rewrite !mul_spec. apply SFmul_comm.
Qed.

Lemma addEntry_lookup K e a b :
  addEntry K e !! (a, b)
  = if hits a b e then accumulate (K !! (a, b)) (snd e) else K !! (a, b).
Proof.
  destruct e as [[r c] v]. unfold addEntry, hits, addToSparseMatrix, accumulate. simpl.
  destruct (Nat.eqb_spec r a) as [->|Hr]; simpl.
  - destruct (Nat.eqb_spec c b) as [->|Hc]; simpl.
    + by rewrite lookup_insert_eq.
    + rewrite lookup_insert_ne; [done|congruence].
  - rewrite lookup_insert_ne; [done|congruence].
Qed.

Lemma addEntries_lookup entries a b : forall K,
  foldl addEntry K entries !! (a, b)
  = foldl accumulate (K !! (a, b)) (map snd (List.filter (hits a b) entries)).
Proof.
  induction entries as [|e entries IH]; intros K; simpl; [done|].
  rewrite IH, addEntry_lookup. by destruct (hits a b e).
Qed.

(** The nine additions of one element, with the same value for the two
    entries of each pair of corners. *)
Lemma nine_additions_symmetric K i j k dii dij dik djj djk dkk :
  symmetricMatrix K ->
  symmetricMatrix
    (foldl addEntry K
       [(i, i, dii); (i, j, dij); (i, k, dik);
        (j, i, dij); (j, j, djj); (j, k, djk);
        (k, i, dik); (k, j, djk); (k, k, dkk)]).
Proof.
  intros Hsym a b. destruct (decide (a = b)) as [->|Hab]; [done|].
  rewrite !addEntries_lookup, (Hsym a b). f_equal.
  unfold hits. simpl.
  destruct (Nat.eqb_spec i a), (Nat.eqb_spec j a), (Nat.eqb_spec k a),
    (Nat.eqb_spec i b), (Nat.eqb_spec j b), (Nat.eqb_spec k b);
    simpl; try reflexivity; congruence.
Qed.

Lemma assembleElement_symmetric ns element K K' :
  assembleElement ns element K = Returns K' ->
  symmetricMatrix K -> symmetricMatrix K'.
Proof.
  unfold assembleElement. destruct (nodes element) as [[i j] k].
  intros H Hsym. apply bind_returns in H as ([[ni nj] nk] & _ & [= <-]).
  rewrite (float_mul_comm (y nk - y ni) (y nj - y nk)),
          (float_mul_comm (x ni - x nk) (x nk - x nj)),
          (float_mul_comm (y ni - y nj) (y nj - y nk)),
          (float_mul_comm (x nj - x ni) (x nk - x nj)),
          (float_mul_comm (y ni - y nj) (y nk - y ni)),
          (float_mul_comm (x nj - x ni) (x ni - x nk)).
  by apply (nine_additions_symmetric K i j k).
Qed.

Lemma addToSparseMatrix_diagonal_symmetric K i v :
  symmetricMatrix K -> symmetricMatrix (addToSparseMatrix K i i v).
Proof.
  intros Hsym a b. destruct (decide (a = b)) as [->|Hab]; [done|].
  rewrite !addToSparseMatrix_lookup_ne; [done|congruence|congruence].
Qed.

Lemma clearRowAndColumn_symmetric n i K :
  symmetricMatrix K -> symmetricMatrix (clearRowAndColumn n i K).
Proof.
  intros HK. unfold clearRowAndColumn.
  apply (foldl_invariant symmetricMatrix); [done|]. intros K' j _ Hsym a b.
  unfold deleteFromSparseMatrix.
  destruct (decide ((a, b) = (j, i))) as [[= -> ->]|H1].
  - rewrite lookup_delete_eq. symmetry. apply lookup_delete_None. right.
    apply lookup_delete_None. by left.
  - rewrite lookup_delete_ne by done.
    destruct (decide ((a, b) = (i, j))) as [[= -> ->]|H2].
    + rewrite lookup_delete_eq. symmetry. apply lookup_delete_None. by left.
    + rewrite lookup_delete_ne by done.
      rewrite !lookup_delete_ne by congruence. apply Hsym.
Qed.

Lemma applyBoundary_symmetric h1 h2 n KF inode :
  symmetricMatrix KF.1 -> symmetricMatrix (applyBoundary h1 h2 n KF inode).1.
Proof.
  destruct KF as [K F], inode as [i node]. simpl. intros Hsym.
  unfold applyBoundary.
  destruct (fixed node); simpl.
  - apply addToSparseMatrix_diagonal_symmetric.
    by apply clearRowAndColumn_symmetric.
  - destruct (isBoundary node); simpl; [|done].
    destruct (isInterior _); simpl;
      [by apply addToSparseMatrix_diagonal_symmetric|].
    destruct (isExterior _); simpl;
      [by apply addToSparseMatrix_diagonal_symmetric|done].
Qed.

(** X25: the conductance matrix that the solver iterates on, assembled
    and with the boundary conditions applied, is symmetric: the entries
    at [(a, b)] and [(b, a)] are both missing or hold the same number,
    for every mesh, also one whose elements repeat a corner. *)
Theorem system_matrix_is_symmetric mesh K F :
  buildSystem INTERIOR_HEAT_TRANSFER_COEFFICIENT EXTERIOR_HEAT_TRANSFER_COEFFICIENT
    mesh = Returns (K, F) ->
  symmetricMatrix K.
Proof.
  unfold buildSystem. intros H.
  apply bind_returns in H as (K0 & HK0 & [= H]).
  assert (H0 : symmetricMatrix K0).
  { unfold assemble in HK0.
    apply (forEach_invariant symmetricMatrix _ _ _ _) in HK0; [done| |].
    - intros a b. by rewrite !lookup_empty.
    - intros e K1 K2 _ H1 H2. exact (assembleElement_symmetric _ _ _ _ H2 H1). }
  replace K with (applyBoundaryConditions INTERIOR_HEAT_TRANSFER_COEFFICIENT
                    EXTERIOR_HEAT_TRANSFER_COEFFICIENT (meshNodes mesh)
                    (K0, replicate (length (meshNodes mesh)) 0%float)).1
    by by rewrite H.
  unfold applyBoundaryConditions.
  apply (foldl_invariant (fun KF : SparseMatrix * list float => symmetricMatrix KF.1)).
  - exact H0.
  - intros KF inode _ Hsym. by apply applyBoundary_symmetric.
Qed.

Lemma system_matrix_is_symmetric_witness :
  match buildSystem INTERIOR_HEAT_TRANSFER_COEFFICIENT
          EXTERIOR_HEAT_TRANSFER_COEFFICIENT convectiveMesh with
  | Returns (K, F) => symmetricMatrix K
  | Fails _ => False
  end.
Proof.
  destruct (buildSystem _ _ convectiveMesh) as [[K F]|f] eqn:E.
  - exact (system_matrix_is_symmetric convectiveMesh K F E).
  - vm_compute in E. discriminate E.
Defined.
